(** * Operation keys, transition keys and result classification

    A shallow embedding of [lib/common/operations.c] (Pacemaker): the
    operation-key and transition-key codecs, the result classifier, the
    digest filter and the meta-data requirement policy, followed by the
    properties of these functions.

    Conventions of the embedding.
    - A C string is a [list ascii] (type [cstr]); a possibly-NULL
      [const char *] is an [option cstr].
    - [int] and [guint] are integers [Z]; where the C code computes in a
      fixed width the wrap-around is written out ([wrap32], [wrap64],
      [to_int]).
    - A function that writes through output pointers returns, next to its
      [gboolean] result, a record with the value stored in each output;
      where a function may leave an output untouched it also takes the
      record of what the caller's variables held before the call.
    - The XML attributes of an element are a finite map from attribute
      names to values. *)

From Stdlib Require Import ZArith Lia List Ascii String Bool.
From stdpp Require Import gmap strings.
Import ListNotations.

Local Open Scope Z_scope.

(** ** C library primitives used by the source *)

Abbreviation cstr := (list ascii).

(** A string literal of the source. *)
Definition lit (s : string) : cstr := list_ascii_of_string s.

Definition char_code (c : ascii) : Z := Z.of_nat (nat_of_ascii c).

(** [isdigit], [isspace] and [tolower] in the C locale. *)
Definition isdigit (c : ascii) : bool :=
  (48 <=? char_code c) && (char_code c <=? 57).

Definition isspace (c : ascii) : bool :=
  (char_code c =? 32) || ((9 <=? char_code c) && (char_code c <=? 13)).

Definition tolower (c : ascii) : ascii :=
  if (65 <=? char_code c) && (char_code c <=? 90)
  then ascii_of_nat (Z.to_nat (char_code c + 32))
  else c.

Definition ascii_eqb (a b : ascii) : bool := Ascii.eqb a b.

Fixpoint cstr_eqb (a b : cstr) : bool :=
  match a, b with
  | [], [] => true
  | x :: a', y :: b' => ascii_eqb x y && cstr_eqb a' b'
  | _, _ => false
  end.

(** [key[i]] for [i <= strlen(key)]: index [strlen(key)] reads the
    terminating NUL. *)
Definition char_at (key : cstr) (i : nat) : ascii := nth i key zero.

(** [strcasecmp(a, b) == 0]. *)
Definition strcasecmp_eq (a b : cstr) : bool :=
  cstr_eqb (map tolower a) (map tolower b).

(** [strncasecmp(a, b, n) == 0]. *)
Definition strncasecmp_eq (a b : cstr) (n : nat) : bool :=
  strcasecmp_eq (firstn n a) (firstn n b).

Fixpoint is_prefix (p s : cstr) : bool :=
  match p, s with
  | [], _ => true
  | x :: p', y :: s' => ascii_eqb x y && is_prefix p' s'
  | _ :: _, [] => false
  end.

(** [strstr(hay, needle)]: offset of the first occurrence, [None] for a
    NULL result. *)
Fixpoint strstr (hay needle : cstr) : option nat :=
  if is_prefix needle hay then Some 0%nat
  else match hay with
       | [] => None
       | _ :: hay' => option_map S (strstr hay' needle)
       end.

(** *** Fixed-width integers *)

Definition wrap32 (z : Z) : Z := z mod 2 ^ 32.
Definition wrap64 (z : Z) : Z := z mod 2 ^ 64.

Definition INT_MIN : Z := - 2 ^ 31.
Definition INT_MAX : Z := 2 ^ 31 - 1.
Definition G_MAXUINT : Z := 2 ^ 32 - 1.
Definition LONG_MIN : Z := - 2 ^ 63.
Definition LONG_MAX : Z := 2 ^ 63 - 1.

(** Conversion of a [long] to [int]: reduction modulo 2^32 into the signed
    range. *)
Definition to_int (z : Z) : Z := (z + 2 ^ 31) mod 2 ^ 32 - 2 ^ 31.

(** [strtol] saturates at the limits of [long]. *)
Definition clamp_long (z : Z) : Z := Z.max LONG_MIN (Z.min LONG_MAX z).

(** *** printf conversions *)

Definition digit_char (d : Z) : ascii := ascii_of_nat (Z.to_nat (48 + d)).

Fixpoint utoa_aux (fuel : nat) (n : Z) (acc : cstr) : cstr :=
  let acc' := digit_char (n mod 10) :: acc in
  match fuel with
  | O => acc'
  | S fuel' => if n / 10 =? 0 then acc' else utoa_aux fuel' (n / 10) acc'
  end.

(** [%u]: decimal digits, most significant first, no leading zero. *)
Definition utoa (n : Z) : cstr := utoa_aux (Z.to_nat (Z.log2 n)) n [].

(** [%d]. *)
Definition itoa (n : Z) : cstr :=
  if n <? 0 then "-"%char :: utoa (- n) else utoa n.

(** [%-*s] with width [w]: left-justified, padded with spaces up to the
    minimum field width; a longer argument is printed in full. *)
Definition pad_right (w : nat) (s : cstr) : cstr :=
  s ++ repeat " "%char (w - length s)%nat.

(** *** scanf conversions *)

Fixpoint skip_space (s : cstr) : cstr :=
  match s with
  | c :: s' => if isspace c then skip_space s' else s
  | [] => []
  end.

Fixpoint scan_digits (s : cstr) (acc : Z) : Z * cstr :=
  match s with
  | c :: s' =>
      if isdigit c then scan_digits s' (acc * 10 + (char_code c - 48))
      else (acc, s)
  | [] => (acc, [])
  end.

(** Outcome of one conversion directive. *)
Inductive conv (A : Type) : Type :=
| Converted (v : A) (rest : cstr)
| MatchFail
| InputFail.
Arguments Converted {A} v rest.
Arguments MatchFail {A}.
Arguments InputFail {A}.

(** [%d]: white space is skipped, then an optional sign and a non-empty run
    of decimal digits is converted as by [strtol] and stored in an [int]. *)
Definition scan_d (s : cstr) : conv Z :=
  match skip_space s with
  | [] => InputFail
  | c :: s1 =>
      let neg := ascii_eqb c "-"%char in
      let s2 := if neg || ascii_eqb c "+"%char then s1 else c :: s1 in
      match s2 with
      | [] => MatchFail
      | d :: _ =>
          if isdigit d then
            let '(v, rest) := scan_digits s2 0 in
            Converted (to_int (clamp_long (if neg then - v else v))) rest
          else MatchFail
      end
  end.

Fixpoint scan_token (w : nat) (s : cstr) : cstr * cstr :=
  match w, s with
  | S w', c :: s' =>
      if isspace c then ([], s)
      else let '(t, r) := scan_token w' s' in (c :: t, r)
  | _, _ => ([], s)
  end.

(** [%Ns] (and [%ms], whose width is unbounded): white space is skipped,
    then up to [w] characters that are not white space are stored. *)
Definition scan_s (w : nat) (s : cstr) : conv cstr :=
  match skip_space s with
  | [] => InputFail
  | s1 => let '(t, r) := scan_token w s1 in Converted t r
  end.

(** An ordinary character of the format must match the next input
    character. *)
Definition scan_lit (c : ascii) (s : cstr) : option cstr :=
  match s with
  | x :: s' => if ascii_eqb x c then Some s' else None
  | [] => None
  end.

Definition EOF : Z := -1.

(** A conversion specification or an ordinary character of a scanf
    format. *)
Inductive directive : Type :=
| FmtD                      (* %d *)
| FmtS (w : option nat)     (* %Ns, or %ms when the width is absent *)
| FmtLit (c : ascii).

(** A value stored through a pointer argument of scanf. *)
Inductive scanned : Type :=
| ArgInt (z : Z)
| ArgStr (s : cstr).

(** [sscanf]: the directives are processed in order; the result is the
    number of conversions assigned, or [EOF] when the input ends before the
    first conversion. [n] counts the assignments made so far, [acc] holds
    them. *)
Fixpoint sscanf_from (fmt : list directive) (s : cstr) (n : Z)
    (acc : list scanned) : Z * list scanned :=
  match fmt with
  | [] => (n, acc)
  | FmtD :: fmt' =>
      match scan_d s with
      | Converted v r => sscanf_from fmt' r (n + 1) (acc ++ [ArgInt v])
      | MatchFail => (n, acc)
      | InputFail => (if n =? 0 then EOF else n, acc)
      end
  | FmtS w :: fmt' =>
      match scan_s (default (length s) w) s with
      | Converted v r => sscanf_from fmt' r (n + 1) (acc ++ [ArgStr v])
      | MatchFail => (n, acc)
      | InputFail => (if n =? 0 then EOF else n, acc)
      end
  | FmtLit c :: fmt' =>
      match s with
      | [] => (if n =? 0 then EOF else n, acc)
      | _ => match scan_lit c s with
             | Some r => sscanf_from fmt' r n acc
             | None => (n, acc)
             end
      end
  end.

Definition sscanf (s : cstr) (fmt : list directive) : Z * list scanned :=
  sscanf_from fmt s 0 [].

(** ** Operation keys *)

(** Modelled from the spec: the macro [PCMK__OP_FMT] is defined in a header
    that is not part of the sources at hand; the key grammar is
    [resource_id "_" action "_" interval_ms] with the interval as plain
    decimal, that is the format "%s_%s_%u". *)
Definition PCMK__OP_FMT (rsc_id op_type : cstr) (interval_ms : Z) : cstr :=
  rsc_id ++ lit "_" ++ op_type ++ lit "_" ++ utoa interval_ms.

(** [pcmk__op_key]: [None] stands for the abort of [CRM_ASSERT] on a NULL
    argument. [interval_ms] is a [guint]. *)
Definition pcmk__op_key (rsc_id op_type : option cstr) (interval_ms : Z)
    : option cstr :=
  match rsc_id, op_type with
  | Some r, Some o => Some (PCMK__OP_FMT r o interval_ms)
  | _, _ => None
  end.

(** Values stored in the outputs of [parse_op_key]. *)
Record op_key_out : Type := mk_op_key_out {
  out_rsc_id : option cstr;
  out_op_type : option cstr;
  out_interval_ms : Z
}.

(** The inner [for] loop: [ch = ch * 10] repeated, in
    [unsigned long long]. *)
Fixpoint times_ten (n : nat) (ch : Z) : Z :=
  match n with
  | O => ch
  | S n' => times_ten n' (wrap64 (ch * 10))
  end.

(** The loop parsing the interval at the end of the key: runs while
    [offset > 0 && isdigit(key[offset])]; returns the final [offset] and
    [local_interval_ms] (a [guint]). *)
Fixpoint scan_interval (key : cstr) (len offset : nat)
    (local_interval_ms : Z) : nat * Z :=
  match offset with
  | O => (O, local_interval_ms)
  | S offset' =>
      if isdigit (char_at key offset) then
        let ch :=
          times_ten (len - offset - 1) (char_code (char_at key offset) - 48) in
        scan_interval key len offset' (wrap32 (local_interval_ms + ch))
      else (offset, local_interval_ms)
  end.

(** The loop [while (offset > 0 && key[offset] != '_') offset--]. *)
Fixpoint scan_action (key : cstr) (offset : nat) : nat :=
  match offset with
  | O => O
  | S offset' =>
      if ascii_eqb (char_at key offset) "_"%char then offset
      else scan_action key offset'
  end.

(** Modelled from the spec: the macro [safe_str_eq] is defined in a header
    that is not part of the sources at hand; the notify marker is stripped
    only when it is an exact trailing match, so the macro is equality of
    two non-NULL strings. (Behind [strstr], which has matched the marker's
    characters exactly, a comparison without regard to case gives the same
    result.) *)
Definition safe_str_eq (a b : cstr) : bool := cstr_eqb a b.

(** [notify = strstr(mutable_key, marker);
     if (notify && safe_str_eq(notify, marker)) notify[0] = 0;] *)
Definition strip_notify (marker mutable_key : cstr) : cstr :=
  match strstr mutable_key marker with
  | Some i =>
      if safe_str_eq (skipn i mutable_key) marker then firstn i mutable_key
      else mutable_key
  | None => mutable_key
  end.

(** [parse_op_key], with every output pointer supplied. The result is
    [None] where the C code reads outside the key: after an interval that
    starts at index 1 of a key whose first character is an underscore,
    [offset--] wraps around at 0 and [key[offset]] is read. *)
Definition parse_op_key (key : option cstr) : option (bool * op_key_out) :=
  let out0 := mk_op_key_out None None 0 in
  match key with
  | None => Some (false, out0)
  | Some [] => Some (false, out0)
  | Some k =>
      let len := length k in
      let '(offset, local_interval_ms) := scan_interval k len (len - 1) 0 in
      let out1 := mk_op_key_out None None local_interval_ms in
      if negb (offset =? len - 1)%nat && ascii_eqb (char_at k offset) "_"%char
      then
        let mutable_key := firstn offset k in
        match offset with
        | O => None
        | S offset1 =>
            let offset2 := scan_action k offset1 in
            if ascii_eqb (char_at k offset2) "_"%char then
              let op_type := skipn (offset2 + 1) mutable_key in
              let mutable_key := firstn offset2 mutable_key in
              let mutable_key := strip_notify (lit "_post_notify") mutable_key in
              let mutable_key := strip_notify (lit "_pre_notify") mutable_key in
              Some (true,
                    mk_op_key_out (Some mutable_key) (Some op_type)
                                  local_interval_ms)
            else Some (false, out1)
        end
      else Some (false, out1)
  end.

(** [pcmk__notify_key]: [None] is the NULL result of a failed
    [CRM_CHECK]. *)
Definition pcmk__notify_key (rsc_id notify_type op_type : option cstr)
    : option cstr :=
  match rsc_id, op_type, notify_type with
  | Some r, Some o, Some n =>
      Some (r ++ lit "_" ++ n ++ lit "_notify_" ++ o ++ lit "_0")
  | _, _, _ => None
  end.

(** ** Transition keys *)

(** [pcmk__transition_key]: the format is "%d:%d:%d:%-*s" with width 36. *)
Definition pcmk__transition_key (transition_id action_id target_rc : Z)
    (node : option cstr) : option cstr :=
  match node with
  | None => None
  | Some n =>
      Some (itoa action_id ++ lit ":" ++ itoa transition_id ++ lit ":"
            ++ itoa target_rc ++ lit ":" ++ pad_right 36 n)
  end.

(** Values stored in the outputs of [decode_transition_key]. *)
Record transition_key_out : Type := mk_transition_key_out {
  key_uuid : option cstr;
  key_transition_id : Z;
  key_action_id : Z;
  key_target_rc : Z
}.

(** "%d:%d:%d:%36s" *)
Definition transition_key_fmt : list directive :=
  [FmtD; FmtLit ":"; FmtD; FmtLit ":"; FmtD; FmtLit ":"; FmtS (Some 36%nat)].

(** [decode_transition_key]: every supplied output is first initialized
    (NULL, -1, -1, -1) and overwritten only when all four fields were
    scanned. *)
Definition decode_transition_key (key : option cstr)
    : bool * transition_key_out :=
  let init := mk_transition_key_out None (-1) (-1) (-1) in
  match key with
  | None => (false, init)
  | Some k =>
      match sscanf k transition_key_fmt with
      | (4, [ArgInt local_action_id; ArgInt local_transition_id;
             ArgInt local_target_rc; ArgStr local_uuid]) =>
          (true,
           mk_transition_key_out (Some local_uuid) local_transition_id
                                 local_action_id local_target_rc)
      | _ => (false, init)
      end
  end.

(** The caller's variables behind the six output pointers of
    [decode_transition_magic]. *)
Record magic_out : Type := mk_magic_out {
  magic_uuid : option cstr;
  magic_transition_id : Z;
  magic_action_id : Z;
  magic_op_status : Z;
  magic_op_rc : Z;
  magic_target_rc : Z
}.

(** "%d:%d;%ms" *)
Definition transition_magic_fmt : list directive :=
  [FmtD; FmtLit ":"; FmtD; FmtLit ";"; FmtS None].

(** [decode_transition_magic] (the [SSCANF_HAS_M] variant). [out] holds
    what the caller's variables contain before the call; the result holds
    what they contain afterwards. *)
Definition decode_transition_magic (magic : option cstr) (out : magic_out)
    : bool * magic_out :=
  match magic with
  | None => (false, out)
  | Some m =>
      let '(res, assigned) := sscanf m transition_magic_fmt in
      if res =? EOF then (false, out)
      else if res <? 3 then (false, out)
      else
        match assigned with
        | [ArgInt local_op_status; ArgInt local_op_rc; ArgStr key] =>
            let '(result, k) := decode_transition_key (Some key) in
            (result,
             mk_magic_out (key_uuid k) (key_transition_id k)
                          (key_action_id k) local_op_status local_op_rc
                          (key_target_rc k))
        | _ => (false, out) (* not reached: three items were assigned *)
        end
  end.

(** ** Operation results *)

(** Modelled from the spec: [enum op_status] is declared in a header that
    is not part of the sources at hand; it is a fixed set of named
    constants. *)
Inductive op_status_t : Type :=
| PCMK_LRM_OP_UNKNOWN
| PCMK_LRM_OP_PENDING
| PCMK_LRM_OP_DONE
| PCMK_LRM_OP_CANCELLED
| PCMK_LRM_OP_TIMEOUT
| PCMK_LRM_OP_NOTSUPPORTED
| PCMK_LRM_OP_ERROR
| PCMK_LRM_OP_ERROR_HARD
| PCMK_LRM_OP_ERROR_FATAL
| PCMK_LRM_OP_NOT_INSTALLED
| PCMK_LRM_OP_NOT_CONNECTED
| PCMK_LRM_OP_INVALID.

(** The fields of [lrmd_event_data_t] read by this file. *)
Record lrmd_event_data_t : Type := mk_lrmd_event_data {
  op_status : op_status_t;
  rc : Z;
  user_data : option cstr
}.

(** [rsc_op_expected_rc]: only the [target_rc] output of
    [decode_transition_key] is supplied, and it points to [rc]. *)
Definition rsc_op_expected_rc (op : option lrmd_event_data_t) : Z :=
  let rc := 0 in
  match op with
  | Some o =>
      match user_data o with
      | Some data => key_target_rc (snd (decode_transition_key (Some data)))
      | None => rc
      end
  | None => rc
  end.

Definition did_rsc_op_fail (op : lrmd_event_data_t) (target_rc : Z) : bool :=
  match op_status op with
  | PCMK_LRM_OP_CANCELLED
  | PCMK_LRM_OP_PENDING => false
  | PCMK_LRM_OP_NOTSUPPORTED
  | PCMK_LRM_OP_TIMEOUT
  | PCMK_LRM_OP_ERROR
  | PCMK_LRM_OP_NOT_CONNECTED
  | PCMK_LRM_OP_INVALID => true
  | _ => if negb (target_rc =? rc op) then true else false
  end.

(** ** Digest filter *)

(** The attributes of an XML element. *)
Abbreviation xml_attrs := (gmap cstr cstr).

(** Modelled from the spec: the attribute-name constants are defined in
    headers that are not part of the sources at hand; they are the
    identifier key, the version-marker key, the prior-digest key, the
    target-node key, the target-node-UUID key, the interval and timeout
    names and the meta-attribute namespace prefix, with the values used
    cluster-wide. *)
Definition XML_ATTR_ID : cstr := lit "id".
Definition XML_ATTR_CRM_VERSION : cstr := lit "crm_feature_set".
Definition XML_LRM_ATTR_OP_DIGEST : cstr := lit "op-digest".
Definition XML_LRM_ATTR_TARGET : cstr := lit "on_node".
Definition XML_LRM_ATTR_TARGET_UUID : cstr := lit "on_node_uuid".
Definition XML_LRM_ATTR_INTERVAL_MS : cstr := lit "interval".
Definition XML_ATTR_TIMEOUT : cstr := lit "timeout".
Definition CRM_META : cstr := lit "CRM_meta".
Definition pcmk_ok : Z := 0.

(** Modelled from the spec: [crm_meta_name] (its source file is not part of
    the sources at hand) builds the namespaced name of a meta-attribute,
    [CRM_META "_" field], with every dash of the result turned into an
    underscore. *)
Definition crm_meta_name (field : cstr) : cstr :=
  map (fun c => if ascii_eqb c "-"%char then "_"%char else c)
      (CRM_META ++ lit "_" ++ field).

(** Modelled from the spec: [xml_remove_prop], [crm_element_value_copy] and
    [crm_xml_add] (their source file is not part of the sources at hand)
    remove an attribute, read a copy of its value (NULL when absent) and
    set it. *)
Definition xml_remove_prop (obj : xml_attrs) (name : cstr) : xml_attrs :=
  delete name obj.

Definition crm_element_value_copy (data : xml_attrs) (name : cstr)
    : option cstr :=
  data !! name.

Definition crm_xml_add (node : xml_attrs) (name value : cstr) : xml_attrs :=
  <[name := value]> node.

Section DigestFilter.

(** Conversion of the text of an attribute to milliseconds; [None] when
    the text does not parse as a [guint]. *)
Variable parse_ms : cstr -> option Z.

(** Modelled from the spec: [crm_element_value_ms] (its source file is not
    part of the sources at hand) reads an attribute as a number of
    milliseconds; it returns [pcmk_ok] and the value, or -1 when the
    attribute is absent or does not parse. *)
Definition crm_element_value_ms (data : xml_attrs) (name : cstr) : Z * Z :=
  match data !! name with
  | Some text =>
      match parse_ms text with
      | Some ms => (pcmk_ok, ms)
      | None => (-1, 0)
      end
  | None => (-1, 0)
  end.

Definition attr_filter : list cstr :=
  [ XML_ATTR_ID; XML_ATTR_CRM_VERSION; XML_LRM_ATTR_OP_DIGEST;
    XML_LRM_ATTR_TARGET; XML_LRM_ATTR_TARGET_UUID; lit "pcmk_external_ip" ].

(** The loop over the attributes of [param_set] that removes every
    [CRM_meta_*] attribute; [names] are the attribute names still to be
    visited. *)
Fixpoint remove_meta_attrs (names : list cstr) (param_set : xml_attrs)
    : xml_attrs :=
  match names with
  | [] => param_set
  | prop_name :: names' =>
      remove_meta_attrs names'
        (if strncasecmp_eq prop_name CRM_META (length CRM_META)
         then xml_remove_prop param_set prop_name
         else param_set)
  end.

(** [pcmk__filter_op_for_digest]: the result is the content of
    [param_set] after the call; a NULL [param_set] is left alone. *)
Definition pcmk__filter_op_for_digest (param_set : option xml_attrs)
    : option xml_attrs :=
  match param_set with
  | None => None
  | Some params =>
      let params := fold_left xml_remove_prop attr_filter params in
      let key := crm_meta_name XML_LRM_ATTR_INTERVAL_MS in
      let '(status, value) := crm_element_value_ms params key in
      let interval_ms := if negb (status =? pcmk_ok) then 0 else value in
      let key := crm_meta_name XML_ATTR_TIMEOUT in
      let timeout := crm_element_value_copy params key in
      let params := remove_meta_attrs (map fst (map_to_list params)) params in
      match timeout with
      | Some t =>
          if negb (interval_ms =? 0) then Some (crm_xml_add params key t)
          else Some params
      | None => Some params
      end
  end.

End DigestFilter.

(** ** Meta-data requirement *)

(** Modelled from the spec: the action names are defined in a header that
    is not part of the sources at hand; they are start, status/monitor,
    promote, demote, reload, migrate-to, migrate-from and notify. *)
Definition CRMD_ACTION_START : cstr := lit "start".
Definition CRMD_ACTION_STATUS : cstr := lit "monitor".
Definition CRMD_ACTION_PROMOTE : cstr := lit "promote".
Definition CRMD_ACTION_DEMOTE : cstr := lit "demote".
Definition CRMD_ACTION_RELOAD : cstr := lit "reload".
Definition CRMD_ACTION_MIGRATE : cstr := lit "migrate_to".
Definition CRMD_ACTION_MIGRATED : cstr := lit "migrate_from".
Definition CRMD_ACTION_NOTIFY : cstr := lit "notify".

(** Modelled from the spec: the macro [is_not_set] is defined in a header
    that is not part of the sources at hand; [is_not_set(g, f)] holds when
    the capability set [g] lacks the flag [f], [((g) & (f)) == 0]. *)
Definition is_not_set (g f : Z) : bool := Z.land g f =? 0.

(** Modelled from the spec: [pcmk__str_eq] is defined in a file that is not
    part of the sources at hand; it compares two strings by exact,
    case-sensitive equality. The flag [pcmk__str_null_matches] named at the
    call site makes a NULL argument match, which is how the documentation
    of [crm_op_needs_metadata] lets [op] be NULL to skip the op check. *)
Definition pcmk__str_eq_null_matches (s1 s2 : option cstr) : bool :=
  match s1, s2 with
  | Some a, Some b => cstr_eqb a b
  | _, _ => true
  end.

(** [strcmp(a, b) != 0]. *)
Definition strcmp_ne (a b : cstr) : bool := negb (cstr_eqb a b).

Section MetadataRequirement.

(** The capability table of the resource classes and the flag for
    "supports parameters" are declared outside this file. *)
Variable pcmk_get_ra_caps : cstr -> Z.
Variable pcmk_ra_cap_params : Z.

(** [crm_op_needs_metadata]. When [op] is NULL the first comparison
    matches, so the [strcmp] calls are not evaluated. *)
Definition crm_op_needs_metadata (rsc_class op : option cstr) : bool :=
  if negb (bool_decide (is_Some rsc_class) || bool_decide (is_Some op))
  then false
  else if match rsc_class with
          | Some class => is_not_set (pcmk_get_ra_caps class) pcmk_ra_cap_params
          | None => false
          end
  then false
  else if negb (pcmk__str_eq_null_matches op (Some CRMD_ACTION_START))
          && match op with
             | Some o =>
                 strcmp_ne o CRMD_ACTION_STATUS
                 && strcmp_ne o CRMD_ACTION_PROMOTE
                 && strcmp_ne o CRMD_ACTION_DEMOTE
                 && strcmp_ne o CRMD_ACTION_RELOAD
                 && strcmp_ne o CRMD_ACTION_MIGRATE
                 && strcmp_ne o CRMD_ACTION_MIGRATED
                 && strcmp_ne o CRMD_ACTION_NOTIFY
             | None => false
             end
  then false
  else true.

End MetadataRequirement.

(** ** Vocabulary of the statements *)

(** Value of a run of decimal digits. *)
Definition dec_val (ds : cstr) : Z :=
  fold_left (fun a c => a * 10 + (char_code c - 48)) ds 0.

Definition all_digits (ds : cstr) : Prop := Forall (fun c => isdigit c = true) ds.

Definition no_space (s : cstr) : Prop := Forall (fun c => isspace c = false) s.

(** A node name cut or padded with spaces to exactly 36 characters. *)
Definition fixed_width_36 (node : cstr) : cstr := firstn 36 (pad_right 36 node).

(** The names of the interval and timeout meta-attributes. *)
Definition interval_key : cstr := crm_meta_name XML_LRM_ATTR_INTERVAL_MS.
Definition timeout_key : cstr := crm_meta_name XML_ATTR_TIMEOUT.

(** The test of the loop that removes the meta-attributes. *)
Definition is_meta (name : cstr) : bool :=
  strncasecmp_eq name CRM_META (length CRM_META).

(** The interval that [pcmk__filter_op_for_digest] reads from a parameter
    set: 0 when the attribute is absent or does not parse. *)
Definition interval_of (parse_ms : cstr -> option Z) (params : xml_attrs) : Z :=
  let '(status, value) := crm_element_value_ms parse_ms params interval_key in
  if negb (status =? pcmk_ok) then 0 else value.

(** A conversion to instantiate [parse_ms] in examples: an unsigned decimal
    numeral within the range of [guint]. *)
Definition decimal_ms (text : cstr) : option Z :=
  match text with
  | [] => None
  | _ =>
      match scan_digits text 0 with
      | (ms, []) => if ms <=? G_MAXUINT then Some ms else None
      | _ => None
      end
  end.

(** An attribute of the parameter set left by the filter. *)
Definition attr_of (param_set : option xml_attrs) (name : cstr) : option cstr :=
  match param_set with
  | Some params => params !! name
  | None => None
  end.

(** The actions for which meta-data is needed. *)
Definition metadata_actions : list cstr :=
  [ CRMD_ACTION_START; CRMD_ACTION_STATUS; CRMD_ACTION_PROMOTE;
    CRMD_ACTION_DEMOTE; CRMD_ACTION_RELOAD; CRMD_ACTION_MIGRATE;
    CRMD_ACTION_MIGRATED; CRMD_ACTION_NOTIFY ].

(** A recurring monitor with a timeout, as handed to the digest filter. *)
Definition recurring_params : xml_attrs :=
  <[lit "CRM_meta_interval" := lit "60000"]>
    (<[lit "CRM_meta_timeout" := lit "20000"]>
       (<[lit "id" := lit "rsc-monitor-60s"]>
          (<[lit "configfile" := lit "/etc/httpd/conf/httpd.conf"]> ∅))).

(** The same operation without interval. *)
Definition oneshot_params : xml_attrs :=
  <[lit "CRM_meta_interval" := lit "0"]>
    (<[lit "CRM_meta_timeout" := lit "20000"]>
       (<[lit "configfile" := lit "/etc/httpd/conf/httpd.conf"]> ∅)).

(** * Properties *)

(** ** Characters and strings *)

Lemma ascii_eqb_eq (a b : ascii) : ascii_eqb a b = true <-> a = b.
Proof. apply Ascii.eqb_eq. Qed.

Lemma ascii_eqb_refl (a : ascii) : ascii_eqb a a = true.
Proof. apply Ascii.eqb_refl. Qed.

Lemma ascii_eqb_neq (a b : ascii) : ascii_eqb a b = false <-> a <> b.
Proof. apply Ascii.eqb_neq. Qed.

Lemma cstr_eqb_eq (a b : cstr) : cstr_eqb a b = true <-> a = b.
Proof.
  revert b. induction a as [|x a IH]; intros [|y b]; simpl;
    try (split; [discriminate | congruence]); [tauto|].
  rewrite andb_true_iff, ascii_eqb_eq, IH.
  split; [intros [-> ->]; reflexivity | intros [= -> ->]; auto].
Qed.

Lemma isdigit_range (c : ascii) :
  isdigit c = true <-> 48 <= char_code c <= 57.
Proof. unfold isdigit. rewrite andb_true_iff, !Z.leb_le. tauto. Qed.

Lemma isdigit_not_space (c : ascii) : isdigit c = true -> isspace c = false.
Proof.
  intros H%isdigit_range. unfold isspace.
  apply orb_false_iff; split; [lia|].
  apply andb_false_iff. lia.
Qed.

Lemma isdigit_not_char (c x : ascii) :
  isdigit c = true -> isdigit x = false -> ascii_eqb c x = false.
Proof.
  intros Hc Hx. apply ascii_eqb_neq. intros ->. congruence.
Qed.

Lemma digit_char_spec (d : Z) :
  0 <= d < 10 ->
  isdigit (digit_char d) = true /\ char_code (digit_char d) - 48 = d.
Proof.
  intros H.
  assert (Hd : d = 0 \/ d = 1 \/ d = 2 \/ d = 3 \/ d = 4 \/ d = 5
               \/ d = 6 \/ d = 7 \/ d = 8 \/ d = 9) by lia.
  repeat destruct Hd as [Hd|Hd]; subst d; split; reflexivity.
Qed.

Lemma char_at_app (pre post : cstr) (c : ascii) :
  char_at (pre ++ c :: post) (length pre) = c.
Proof. unfold char_at. induction pre; simpl; auto. Qed.

(** ** Decimal numerals *)

Lemma dec_val_snoc (ds : cstr) (d : ascii) :
  dec_val (ds ++ [d]) = dec_val ds * 10 + (char_code d - 48).
Proof. unfold dec_val. rewrite fold_left_app. reflexivity. Qed.

Lemma utoa_aux_spec (fuel : nat) :
  forall (n : Z) (acc : cstr),
    0 <= n < 10 ^ (Z.of_nat fuel + 1) ->
    exists ds, utoa_aux fuel n acc = ds ++ acc /\ all_digits ds
               /\ ds <> [] /\ dec_val ds = n.
Proof.
  induction fuel as [|fuel IH]; intros n acc Hn.
  - simpl in *. exists [digit_char (n mod 10)].
    destruct (digit_char_spec (n mod 10)) as [Hd Hv];
      [apply Z.mod_pos_bound; lia|].
    repeat split; [repeat constructor; exact Hd | discriminate |].
    unfold dec_val; simpl. rewrite Hv. apply Z.mod_small. lia.
  - destruct (digit_char_spec (n mod 10)) as [Hd Hv];
      [apply Z.mod_pos_bound; lia|].
    simpl utoa_aux. destruct (n / 10 =? 0) eqn:Hq.
    + apply Z.eqb_eq in Hq. exists [digit_char (n mod 10)].
      repeat split; [repeat constructor; exact Hd | discriminate |].
      unfold dec_val; simpl. rewrite Hv.
      pose proof (Z.div_mod n 10). lia.
    + apply Z.eqb_neq in Hq.
      destruct (IH (n / 10) (digit_char (n mod 10) :: acc)) as (ds & E & Hds & _ & Hval).
      { split; [apply Z.div_pos; lia|].
        apply Z.div_lt_upper_bound; [lia|].
        replace (Z.of_nat (S fuel) + 1) with (Z.succ (Z.of_nat fuel + 1)) in Hn by lia.
        rewrite Z.pow_succ_r in Hn by lia. lia. }
      exists (ds ++ [digit_char (n mod 10)]).
      rewrite E, <- app_assoc. repeat split.
      * apply Forall_app; split; [exact Hds | repeat constructor; exact Hd].
      * intros Habs. apply app_eq_nil in Habs. destruct Habs; discriminate.
      * rewrite dec_val_snoc, Hval, Hv. pose proof (Z.div_mod n 10). lia.
Qed.

Lemma pow10_log2_bound (n : Z) : 0 <= n -> n < 10 ^ (Z.log2 n + 1).
Proof.
  intros Hn. destruct (Z.eq_dec n 0) as [->|Hne]; [reflexivity|].
  pose proof (Z.log2_nonneg n) as Hl.
  assert (Hlt : n < 2 ^ (Z.log2 n + 1)).
  { replace (Z.log2 n + 1) with (Z.succ (Z.log2 n)) by lia.
    apply Z.log2_spec. lia. }
  assert (2 ^ (Z.log2 n + 1) <= 10 ^ (Z.log2 n + 1)).
  { apply Z.pow_le_mono_l. lia. }
  lia.
Qed.

Lemma utoa_spec (n : Z) :
  0 <= n -> all_digits (utoa n) /\ utoa n <> [] /\ dec_val (utoa n) = n.
Proof.
  intros Hn. unfold utoa.
  destruct (utoa_aux_spec (Z.to_nat (Z.log2 n)) n []) as (ds & E & H1 & H2 & H3).
  { rewrite Z2Nat.id by apply Z.log2_nonneg.
    split; [exact Hn | apply pow10_log2_bound; exact Hn]. }
  rewrite E, app_nil_r. auto.
Qed.

(** ** Operation keys: decoding an encoded key *)

Lemma times_ten_mod (n : nat) :
  forall ch : Z, times_ten n ch mod 2 ^ 32 = (ch * 10 ^ Z.of_nat n) mod 2 ^ 32.
Proof.
  induction n as [|n IH]; intros ch.
  - simpl. f_equal. lia.
  - simpl times_ten. rewrite IH. unfold wrap64.
    replace (2 ^ 64) with (2 ^ 32 * 2 ^ 32) by reflexivity.
    rewrite Z.mul_mod by lia.
    rewrite Z.rem_mul_r by lia.
    rewrite Z.mul_comm with (n := 2 ^ 32) at 1.
    rewrite Z.mod_add by lia.
    rewrite Z.mod_mod by lia.
    rewrite <- Z.mul_mod by lia.
    f_equal. rewrite Nat2Z.inj_succ, Z.pow_succ_r by lia. lia.
Qed.

Lemma scan_interval_unfold (key : cstr) (len offset' : nat) (acc : Z) :
  scan_interval key len (S offset') acc =
    if isdigit (char_at key (S offset')) then
      scan_interval key len offset'
        (wrap32 (acc + times_ten (len - S offset' - 1)
                         (char_code (char_at key (S offset')) - 48)))
    else (S offset', acc).
Proof. reflexivity. Qed.

(** The first loop of [parse_op_key] walks back over a digit run [ds] that
    follows a character [c] which is not a digit, and accumulates its
    decimal value modulo 2^32. *)
Lemma scan_interval_digits (ds : cstr) :
  forall (pre post : cstr) (c : ascii) (acc : Z),
    all_digits ds -> isdigit c = false ->
    exists v,
      scan_interval (pre ++ c :: ds ++ post)
                    (length (pre ++ c :: ds ++ post))
                    (length pre + length ds) acc = (length pre, v)
      /\ v mod 2 ^ 32 = (acc + dec_val ds * 10 ^ Z.of_nat (length post)) mod 2 ^ 32
      /\ (ds <> [] -> 0 <= v < 2 ^ 32).
Proof.
  induction ds as [|d ds IH] using rev_ind; intros pre post c acc Hds Hc.
  - exists acc. simpl. rewrite Nat.add_0_r. repeat split; try congruence.
    + destruct (length pre) eqn:E; [reflexivity|].
      rewrite scan_interval_unfold, <- E, char_at_app, Hc. reflexivity.
    + f_equal. unfold dec_val; simpl. lia.
  - apply Forall_app in Hds as [Hds Hd].
    inversion Hd as [|? ? Hd' _]; subst.
    rewrite <- app_assoc. simpl app.
    set (key := pre ++ c :: ds ++ d :: post).
    assert (Ekey : key = (pre ++ c :: ds) ++ d :: post).
    { unfold key. rewrite <- app_assoc. reflexivity. }
    assert (Eoff : (length pre + length (ds ++ [d]))%nat
                   = S (length pre + length ds)).
    { rewrite length_app. simpl. lia. }
    rewrite Eoff, scan_interval_unfold.
    assert (Hat : char_at key (S (length pre + length ds)) = d).
    { rewrite Ekey.
      replace (S (length pre + length ds)) with (length (pre ++ c :: ds))
        by (rewrite length_app; simpl; lia).
      apply char_at_app. }
    rewrite Hat, Hd'.
    assert (Elen : (length key - S (length pre + length ds) - 1)%nat
                   = length post).
    { rewrite Ekey. repeat (rewrite ?length_app; simpl). lia. }
    rewrite Elen.
    destruct (IH pre (d :: post) c
                (wrap32 (acc + times_ten (length post) (char_code d - 48)))
                Hds Hc) as (v & Ev & Hv & _).
    exists v. fold key in Ev. rewrite Ev. split; [reflexivity|]. split.
    + rewrite Hv. unfold wrap32.
      rewrite dec_val_snoc. simpl length.
      rewrite Nat2Z.inj_succ, Z.pow_succ_r by lia.
      rewrite Zplus_mod_idemp_l.
      rewrite <- Z.add_assoc, Z.add_comm with (n := acc), <- !Z.add_assoc.
      rewrite <- Zplus_mod_idemp_l, times_ten_mod, Zplus_mod_idemp_l.
      f_equal. lia.
    + intros _. destruct ds as [|d0 ds0] using rev_ind.
      * simpl in Ev. rewrite Nat.add_0_r in Ev.
        destruct (length pre) eqn:E.
        -- simpl in Ev. injection Ev as <-. apply Z.mod_pos_bound. lia.
        -- rewrite scan_interval_unfold in Ev. rewrite <- E in Ev.
           unfold key in Ev. simpl app in Ev.
           rewrite char_at_app, Hc in Ev.
           injection Ev as <-. apply Z.mod_pos_bound. lia.
      * clear IHds0.
        destruct (IH pre (d :: post) c
                    (wrap32 (acc + times_ten (length post) (char_code d - 48)))
                    Hds Hc) as (v' & Ev' & _ & Hr).
        fold key in Ev'. rewrite Ev in Ev'. injection Ev' as <-.
        apply Hr. intros Habs. apply app_eq_nil in Habs.
        destruct Habs; discriminate.
Qed.

Lemma scan_action_unfold (key : cstr) (offset' : nat) :
  scan_action key (S offset') =
    if ascii_eqb (char_at key (S offset')) "_"%char then S offset'
    else scan_action key offset'.
Proof. reflexivity. Qed.

(** The second loop stops at the underscore in front of an action name
    [mid] that contains none. *)
Lemma scan_action_word (mid : cstr) :
  forall pre post : cstr,
    ~ In "_"%char mid ->
    scan_action (pre ++ "_"%char :: mid ++ post) (length pre + length mid)
    = length pre.
Proof.
  induction mid as [|d mid IH] using rev_ind; intros pre post Hmid.
  - simpl. rewrite Nat.add_0_r.
    destruct (length pre) eqn:E; [reflexivity|].
    rewrite scan_action_unfold, <- E, char_at_app, ascii_eqb_refl.
    reflexivity.
  - rewrite <- app_assoc. simpl app.
    replace (length pre + length (mid ++ [d]))%nat
      with (S (length pre + length mid)) by (rewrite length_app; simpl; lia).
    rewrite scan_action_unfold.
    assert (Hat : char_at (pre ++ "_"%char :: mid ++ d :: post)
                          (S (length pre + length mid)) = d).
    { replace (pre ++ "_"%char :: mid ++ d :: post)
        with ((pre ++ "_"%char :: mid) ++ d :: post)
        by (rewrite <- app_assoc; reflexivity).
      replace (S (length pre + length mid))
        with (length (pre ++ "_"%char :: mid))
        by (rewrite length_app; simpl; lia).
      apply char_at_app. }
    rewrite Hat.
    assert (Hd : ascii_eqb d "_"%char = false).
    { apply ascii_eqb_neq. intros ->. apply Hmid, in_or_app. right. left. reflexivity. }
    rewrite Hd. apply IH. intros Hin. apply Hmid, in_or_app. left. exact Hin.
Qed.

Lemma strstr_absent (c : ascii) (marker hay : cstr) :
  ~ In c hay -> strstr hay (c :: marker) = None.
Proof.
  induction hay as [|y hay IH]; intros Hin; [reflexivity|].
  simpl. assert (E : ascii_eqb c y = false).
  { apply ascii_eqb_neq. intros ->. apply Hin. left. reflexivity. }
  rewrite E. simpl. rewrite IH; [reflexivity|].
  intros H. apply Hin. right. exact H.
Qed.

Lemma strip_notify_absent (c : ascii) (marker key : cstr) :
  ~ In c key -> strip_notify (c :: marker) key = key.
Proof. intros H. unfold strip_notify. rewrite strstr_absent by exact H. reflexivity. Qed.

(** Decoding an encoded operation key, for a resource id and an action
    without underscore and an interval in the range of [guint]. *)
Lemma parse_op_key_encoded (rsc_id op_type : cstr) (interval_ms : Z) :
  ~ In "_"%char rsc_id -> ~ In "_"%char op_type ->
  0 <= interval_ms <= G_MAXUINT ->
  parse_op_key (pcmk__op_key (Some rsc_id) (Some op_type) interval_ms)
  = Some (true, mk_op_key_out (Some rsc_id) (Some op_type) interval_ms).
Proof.
  intros Hr Ho Hi. unfold G_MAXUINT in Hi.
  destruct (utoa_spec interval_ms) as (Hds & Hne & Hval); [lia|].
  unfold pcmk__op_key, PCMK__OP_FMT, lit. simpl list_ascii_of_string.
  set (ds := utoa interval_ms) in *.
  set (pre := rsc_id ++ "_"%char :: op_type).
  assert (Ekey : rsc_id ++ ["_"%char] ++ op_type ++ ["_"%char] ++ ds
                 = pre ++ "_"%char :: ds ++ []).
  { unfold pre. rewrite app_nil_r, <- app_assoc. reflexivity. }
  rewrite Ekey.
  destruct (scan_interval_digits ds pre [] "_"%char 0 Hds eq_refl)
    as (v & Ev & Hv & Hrange).
  specialize (Hrange Hne).
  assert (Hv' : v = interval_ms).
  { rewrite Z.mod_small in Hv by lia. rewrite Hv, Hval. simpl.
    rewrite Z.mul_1_r. apply Z.mod_small. lia. }
  subst v.
  unfold parse_op_key.
  destruct (pre ++ "_"%char :: ds ++ []) as [|k0 key] eqn:Ek.
  { destruct pre; discriminate. }
  cbv beta iota. rewrite <- Ek in Ev |- *. cbv zeta.
  assert (Elast : (length (pre ++ "_"%char :: ds ++ []) - 1)%nat
                  = (length pre + length ds)%nat).
  { rewrite length_app. simpl. rewrite app_nil_r. lia. }
  rewrite Elast, Ev.
  assert (Hneq : (length pre =? length pre + length ds)%nat = false).
  { apply Nat.eqb_neq. destruct ds; [congruence | simpl; lia]. }
  rewrite Hneq, char_at_app, ascii_eqb_refl. simpl negb. simpl andb. cbv iota.
  assert (Elen : length pre = S (length rsc_id + length op_type)).
  { unfold pre. rewrite length_app. simpl. lia. }
  rewrite Elen.
  assert (Efirst : firstn (S (length rsc_id + length op_type))
                          (pre ++ "_"%char :: ds ++ []) = pre).
  { rewrite <- Elen. rewrite firstn_app, Nat.sub_diag, firstn_all. simpl.
    apply app_nil_r. }
  rewrite Efirst.
  assert (Escan : scan_action (pre ++ "_"%char :: ds ++ [])
                              (length rsc_id + length op_type)
                  = length rsc_id).
  { unfold pre. rewrite <- app_assoc. simpl app.
    apply (scan_action_word op_type rsc_id ("_"%char :: ds ++ [])). exact Ho. }
  rewrite Escan.
  assert (Hat : char_at (pre ++ "_"%char :: ds ++ []) (length rsc_id) = "_"%char).
  { unfold pre. rewrite <- app_assoc. simpl app. apply char_at_app. }
  rewrite Hat, ascii_eqb_refl.
  assert (Eop : skipn (length rsc_id + 1) pre = op_type).
  { unfold pre. rewrite skipn_app.
    rewrite skipn_all2 by lia.
    replace (length rsc_id + 1 - length rsc_id)%nat with 1%nat by lia.
    reflexivity. }
  assert (Ersc : firstn (length rsc_id) pre = rsc_id).
  { unfold pre. rewrite firstn_app, Nat.sub_diag, firstn_all. simpl.
    apply app_nil_r. }
  rewrite Eop, Ersc.
  change (lit "_post_notify") with ("_"%char :: lit "post_notify").
  change (lit "_pre_notify") with ("_"%char :: lit "pre_notify").
  rewrite (strip_notify_absent "_"%char _ rsc_id Hr).
  rewrite (strip_notify_absent "_"%char _ rsc_id Hr).
  reflexivity.
Qed.

(** Claim C2: for every non-empty resource id and non-empty action, both
    free of the underscore delimiter, and every interval (a [guint], so
    between 0 and [G_MAXUINT]), [parse_op_key] applied to the key built by
    [pcmk__op_key] succeeds and returns the original resource id, action
    and interval. *)
Theorem parse_op_key_roundtrip (rsc_id op_type : cstr) (interval_ms : Z) :
  rsc_id <> [] -> op_type <> [] ->
  ~ In "_"%char rsc_id -> ~ In "_"%char op_type ->
  0 <= interval_ms <= G_MAXUINT ->
  exists key,
    pcmk__op_key (Some rsc_id) (Some op_type) interval_ms = Some key
    /\ parse_op_key (Some key)
       = Some (true, mk_op_key_out (Some rsc_id) (Some op_type) interval_ms).
Proof.
  intros _ _ Hr Ho Hi.
  exists (PCMK__OP_FMT rsc_id op_type interval_ms). split; [reflexivity|].
  apply (parse_op_key_encoded rsc_id op_type interval_ms Hr Ho Hi).
Qed.

Lemma parse_op_key_roundtrip_witness :
  exists key,
    pcmk__op_key (Some (lit "rsc")) (Some (lit "monitor")) 60000 = Some key
    /\ parse_op_key (Some key)
       = Some (true, mk_op_key_out (Some (lit "rsc")) (Some (lit "monitor")) 60000).
Proof.
  apply (parse_op_key_roundtrip (lit "rsc") (lit "monitor") 60000).
  - discriminate.
  - discriminate.
  - vm_compute. intuition discriminate.
  - vm_compute. intuition discriminate.
  - unfold G_MAXUINT. lia.
Defined.

(** The notify marker is stripped from the resource id of a notify key. *)
Example parse_notify_key :
  parse_op_key
    (pcmk__notify_key (Some (lit "myrsc")) (Some (lit "pre")) (Some (lit "start")))
  = Some (true, mk_op_key_out (Some (lit "myrsc")) (Some (lit "start")) 0).
Proof. vm_compute. reflexivity. Qed.

(** A key that starts with an underscore followed only by digits makes the
    second loop read in front of the key. *)
Example parse_op_key_out_of_bounds : parse_op_key (Some (lit "_5")) = None.
Proof. vm_compute. reflexivity. Qed.

(** Claim C10: on the malformed key "abc123", whose trailing digit run is
    not preceded by an underscore, [parse_op_key] fails, leaves the
    resource id and the action NULL, and has stored the value 123 of the
    digit run in the interval output instead of the initial 0. *)
Theorem parse_op_key_failure_sets_interval :
  parse_op_key (Some (lit "abc123"))
  = Some (false, mk_op_key_out None None 123)
  /\ out_interval_ms (mk_op_key_out None None 123) <> 0.
Proof. split; [vm_compute; reflexivity | discriminate]. Qed.

(** ** Transition keys: scanning what was printed *)

Lemma skip_space_id (c : ascii) (s : cstr) :
  isspace c = false -> skip_space (c :: s) = c :: s.
Proof. intros H. simpl. rewrite H. reflexivity. Qed.

Lemma scan_digits_run (ds : cstr) :
  forall (c : ascii) (rest : cstr) (acc : Z),
    all_digits ds -> isdigit c = false ->
    scan_digits (ds ++ c :: rest) acc
    = (fold_left (fun a x => a * 10 + (char_code x - 48)) ds acc, c :: rest).
Proof.
  induction ds as [|d ds IH]; intros c rest acc Hds Hc; simpl.
  - rewrite Hc. reflexivity.
  - inversion Hds as [|? ? Hd Hds']; subst. rewrite Hd. apply IH; assumption.
Qed.

Lemma to_int_small (z : Z) :
  INT_MIN <= z <= INT_MAX -> to_int (clamp_long z) = z.
Proof.
  unfold INT_MIN, INT_MAX, to_int, clamp_long, LONG_MIN, LONG_MAX. intros H.
  rewrite Z.min_r by lia. rewrite Z.max_r by lia.
  rewrite Z.mod_small by lia. lia.
Qed.

Lemma scan_d_utoa (n : Z) (c : ascii) (rest : cstr) :
  0 <= n -> isdigit c = false ->
  exists d ds,
    utoa n = d :: ds /\ isdigit d = true
    /\ scan_digits (utoa n ++ c :: rest) 0 = (n, c :: rest).
Proof.
  intros Hn Hc. destruct (utoa_spec n Hn) as (Hds & Hne & Hval).
  destruct (utoa n) as [|d ds] eqn:E; [congruence|].
  exists d, ds. split; [reflexivity|]. split.
  - inversion Hds; assumption.
  - rewrite scan_digits_run by assumption. f_equal. exact Hval.
Qed.

(** [%d] reads back an [int] printed by [%d] when the next character is
    not a digit. *)
Lemma scan_d_itoa (z : Z) (c : ascii) (rest : cstr) :
  INT_MIN <= z <= INT_MAX -> isdigit c = false ->
  scan_d (itoa z ++ c :: rest) = Converted z (c :: rest).
Proof.
  intros Hz Hc. unfold itoa. destruct (z <? 0) eqn:Hneg.
  - apply Z.ltb_lt in Hneg.
    destruct (scan_d_utoa (- z) c rest) as (d & ds & E & Hd & Hscan);
      [lia | exact Hc |].
    unfold scan_d. simpl app. rewrite skip_space_id by reflexivity.
    rewrite ascii_eqb_refl. simpl orb. cbv iota zeta.
    rewrite E in *. simpl app in *. cbv beta iota. rewrite Hd, Hscan.
    rewrite Z.opp_involutive, to_int_small by exact Hz. reflexivity.
  - apply Z.ltb_ge in Hneg.
    destruct (scan_d_utoa z c rest) as (d & ds & E & Hd & Hscan);
      [lia | exact Hc |].
    unfold scan_d. rewrite E in *. simpl app in *.
    rewrite skip_space_id by (apply isdigit_not_space; exact Hd).
    rewrite (isdigit_not_char d "-"%char Hd eq_refl).
    rewrite (isdigit_not_char d "+"%char Hd eq_refl).
    simpl orb. cbv beta iota zeta. rewrite Hd, Hscan.
    rewrite to_int_small by exact Hz. reflexivity.
Qed.

Lemma scan_token_word (w : nat) :
  forall (word : cstr) (k : nat),
    no_space word ->
    scan_token w (word ++ repeat " "%char k)
    = (firstn w word, skipn w word ++ repeat " "%char k).
Proof.
  induction w as [|w IH]; intros word k Hw.
  - simpl. destruct word, k; reflexivity.
  - destruct word as [|c word].
    + simpl. destruct k; reflexivity.
    + inversion Hw as [|? ? Hc Hw']; subst. simpl.
      rewrite Hc, (IH word k Hw'). reflexivity.
Qed.

Lemma scan_s_padded (w : nat) (word : cstr) (k : nat) :
  word <> [] -> no_space word ->
  scan_s w (word ++ repeat " "%char k)
  = Converted (firstn w word) (skipn w word ++ repeat " "%char k).
Proof.
  intros Hne Hw. unfold scan_s.
  destruct word as [|c word]; [congruence|].
  inversion Hw as [|? ? Hc Hw']; subst.
  change ((c :: word) ++ repeat " "%char k)
    with (c :: (word ++ repeat " "%char k)).
  rewrite skip_space_id by exact Hc.
  change (c :: (word ++ repeat " "%char k))
    with ((c :: word) ++ repeat " "%char k).
  rewrite (scan_token_word w (c :: word) k Hw). reflexivity.
Qed.

(** Decoding an encoded transition key: the three numbers come back, and
    the UUID is the node name cut after 36 characters, without the
    padding. *)
Lemma decode_transition_key_encoded
    (transition_id action_id target_rc : Z) (node : cstr) :
  INT_MIN <= transition_id <= INT_MAX ->
  INT_MIN <= action_id <= INT_MAX ->
  INT_MIN <= target_rc <= INT_MAX ->
  node <> [] -> no_space node ->
  decode_transition_key
    (pcmk__transition_key transition_id action_id target_rc (Some node))
  = (true,
     mk_transition_key_out (Some (firstn 36 node)) transition_id action_id
                           target_rc).
Proof.
  intros Ht Ha Hr Hne Hns.
  unfold pcmk__transition_key, decode_transition_key, sscanf,
    transition_key_fmt, pad_right, lit.
  simpl list_ascii_of_string. simpl app.
  unfold sscanf_from.
  rewrite (scan_d_itoa action_id ":"%char _ Ha eq_refl).
  cbv beta iota. unfold scan_lit at 1. rewrite ascii_eqb_refl.
  rewrite (scan_d_itoa transition_id ":"%char _ Ht eq_refl).
  cbv beta iota. unfold scan_lit at 1. rewrite ascii_eqb_refl.
  rewrite (scan_d_itoa target_rc ":"%char _ Hr eq_refl).
  cbv beta iota. unfold scan_lit at 1. rewrite ascii_eqb_refl.
  unfold default. rewrite (scan_s_padded 36 node _ Hne Hns).
  reflexivity.
Qed.

(** Claim C3, as amended: for all [int] values of the transition id, the
    action id and the target rc, and every non-empty node name without
    white space, [decode_transition_key] applied to the key built by
    [pcmk__transition_key] succeeds, returns the same three numbers, and
    returns as UUID the node name cut after its first 36 characters; the
    padding spaces of the encoded field are not part of the UUID. *)
Theorem decode_transition_key_roundtrip
    (transition_id action_id target_rc : Z) (node : cstr) :
  INT_MIN <= transition_id <= INT_MAX ->
  INT_MIN <= action_id <= INT_MAX ->
  INT_MIN <= target_rc <= INT_MAX ->
  node <> [] -> no_space node ->
  exists key,
    pcmk__transition_key transition_id action_id target_rc (Some node)
    = Some key
    /\ decode_transition_key (Some key)
       = (true,
          mk_transition_key_out (Some (firstn 36 node)) transition_id
                                action_id target_rc).
Proof.
  intros Ht Ha Hr Hne Hns. eexists. split; [reflexivity|].
  apply (decode_transition_key_encoded transition_id action_id target_rc node);
    assumption.
Qed.

Lemma decode_transition_key_roundtrip_witness :
  exists key,
    pcmk__transition_key 5 3 (-7) (Some (lit "node1")) = Some key
    /\ decode_transition_key (Some key)
       = (true, mk_transition_key_out (Some (firstn 36 (lit "node1"))) 5 3 (-7)).
Proof.
  apply (decode_transition_key_roundtrip 5 3 (-7) (lit "node1")).
  - unfold INT_MIN, INT_MAX. lia.
  - unfold INT_MIN, INT_MAX. lia.
  - unfold INT_MIN, INT_MAX. lia.
  - discriminate.
  - repeat constructor.
Defined.

(** Claim C3, as stated, fails for the node name "node1": the key holds the
    name padded to 36 characters, but the decoded UUID is the five
    characters "node1", not the padded field. *)
Lemma decode_transition_key_drops_padding :
  decode_transition_key (pcmk__transition_key 5 3 0 (Some (lit "node1")))
  = (true, mk_transition_key_out (Some (lit "node1")) 5 3 0)
  /\ length (fixed_width_36 (lit "node1")) = 36%nat
  /\ Some (lit "node1") <> Some (fixed_width_36 (lit "node1")).
Proof.
  split; [vm_compute; reflexivity|].
  split; [vm_compute; reflexivity | discriminate].
Qed.

(** Claim C9, as amended: [pcmk__transition_key] fails (returns NULL) only
    for a NULL node; for every other node, the empty string included, it
    produces the key of four fields: action id, transition id and target
    rc in decimal, each followed by a colon, then the node name
    left-justified in a field of at least 36 characters. *)
Theorem pcmk__transition_key_result (transition_id action_id target_rc : Z) :
  pcmk__transition_key transition_id action_id target_rc None = None
  /\ forall node : cstr,
       pcmk__transition_key transition_id action_id target_rc (Some node)
       = Some (itoa action_id ++ lit ":" ++ itoa transition_id ++ lit ":"
               ++ itoa target_rc ++ lit ":"
               ++ node ++ repeat " "%char (36 - length node))
       /\ (36 <= length (pad_right 36 node))%nat.
Proof.
  split; [reflexivity|]. intros node. split; [reflexivity|].
  unfold pad_right. rewrite length_app, repeat_length. lia.
Qed.

(** Claim C9, as stated, fails for the empty node name: the key is built,
    with a node field of 36 spaces. *)
Lemma pcmk__transition_key_empty_node :
  pcmk__transition_key 1 2 0 (Some [])
  = Some (lit "2:1:0:                                    ").
Proof. vm_compute. reflexivity. Qed.

(** ** Expected return code *)

Lemma decode_transition_key_failed (key : option cstr) :
  fst (decode_transition_key key) = false ->
  snd (decode_transition_key key) = mk_transition_key_out None (-1) (-1) (-1).
Proof.
  unfold decode_transition_key. destruct key as [k|]; [|reflexivity].
  destruct (sscanf k transition_key_fmt) as [n args].
  repeat first
    [ reflexivity
    | discriminate
    | match goal with
      | |- context [match ?x with _ => _ end] => destruct x
      end; simpl ].
Qed.

(** Claim C4, as amended: [rsc_op_expected_rc] returns 0 when the event or
    its user data is absent; when user data is present it returns the
    target rc decoded from it as a transition key, and -1 when the user data
    does not decode as a transition key. *)
Theorem rsc_op_expected_rc_result :
  rsc_op_expected_rc None = 0
  /\ (forall status rc,
        rsc_op_expected_rc (Some (mk_lrmd_event_data status rc None)) = 0)
  /\ (forall status rc data,
        rsc_op_expected_rc (Some (mk_lrmd_event_data status rc (Some data)))
        = if fst (decode_transition_key (Some data))
          then key_target_rc (snd (decode_transition_key (Some data)))
          else -1).
Proof.
  split; [reflexivity|]. split; [reflexivity|].
  intros status rc data. unfold rsc_op_expected_rc. simpl user_data.
  destruct (fst (decode_transition_key (Some data))) eqn:E; [reflexivity|].
  rewrite (decode_transition_key_failed _ E). reflexivity.
Qed.

(** Claim C4, as stated, fails for the malformed user data "garbage":
    decoding fails and the result is -1, not 0. *)
Lemma rsc_op_expected_rc_malformed :
  fst (decode_transition_key (Some (lit "garbage"))) = false
  /\ rsc_op_expected_rc
       (Some (mk_lrmd_event_data PCMK_LRM_OP_DONE 0 (Some (lit "garbage"))))
     = -1.
Proof. split; vm_compute; reflexivity. Qed.

(** ** Transition magic *)

Lemma skip_space_incl (x : ascii) (s : cstr) : In x (skip_space s) -> In x s.
Proof.
  induction s as [|c s IH]; simpl; [tauto|].
  destruct (isspace c); simpl; tauto.
Qed.

Lemma scan_digits_incl (x : ascii) (s : cstr) :
  forall acc v r, scan_digits s acc = (v, r) -> In x r -> In x s.
Proof.
  induction s as [|c s IH]; simpl; intros acc v r E Hin.
  - injection E as <- <-. exact Hin.
  - destruct (isdigit c).
    + right. eapply IH; eassumption.
    + injection E as <- <-. exact Hin.
Qed.

Lemma scan_d_incl (x : ascii) (s r : cstr) (v : Z) :
  scan_d s = Converted v r -> In x r -> In x s.
Proof.
  unfold scan_d. intros E Hin. apply skip_space_incl.
  destruct (skip_space s) as [|c s1]; [discriminate|].
  destruct (ascii_eqb c "-"%char || ascii_eqb c "+"%char).
  - destruct s1 as [|d s2]; [discriminate|].
    destruct (isdigit d); [|discriminate].
    destruct (scan_digits (d :: s2) 0) as [v0 r0] eqn:Ed.
    injection E as _ <-.
    right. eapply scan_digits_incl; eassumption.
  - destruct (isdigit c); [|discriminate].
    destruct (scan_digits (c :: s1) 0) as [v0 r0] eqn:Ed.
    injection E as _ <-.
    eapply scan_digits_incl; eassumption.
Qed.

Lemma scan_lit_incl (x c : ascii) (s r : cstr) :
  scan_lit c s = Some r -> In x r -> In x s.
Proof.
  destruct s as [|y s]; simpl; [discriminate|].
  destruct (ascii_eqb y c); [|discriminate].
  intros [= <-]. tauto.
Qed.

Lemma scan_lit_absent (c : ascii) (s : cstr) :
  ~ In c s -> scan_lit c s = None.
Proof.
  destruct s as [|y s]; simpl; [reflexivity|]. intros H.
  destruct (ascii_eqb y c) eqn:E; [|reflexivity].
  apply ascii_eqb_eq in E. subst. tauto.
Qed.

(** Without a semicolon the initial split assigns at most two items. *)
Lemma sscanf_magic_no_semicolon (magic : cstr) :
  ~ In ";"%char magic -> fst (sscanf magic transition_magic_fmt) < 3.
Proof.
  intros Hno. unfold sscanf, transition_magic_fmt, sscanf_from.
  destruct (scan_d magic) as [v1 r1| |] eqn:E1; try (simpl; unfold EOF; lia).
  destruct r1 as [|c1 r1']; [simpl; lia|].
  destruct (scan_lit ":" (c1 :: r1')) as [r2|] eqn:E2; [|simpl; lia].
  destruct (scan_d r2) as [v2 r3| |] eqn:E3; try (simpl; lia).
  destruct r3 as [|c3 r3']; [simpl; lia|].
  rewrite scan_lit_absent; [simpl; lia|].
  intros Hin. apply Hno.
  eapply scan_d_incl; [exact E1|].
  eapply scan_lit_incl; [exact E2|].
  eapply scan_d_incl; [exact E3|]. exact Hin.
Qed.

Lemma decode_transition_magic_short (magic : cstr) (out : magic_out) :
  fst (sscanf magic transition_magic_fmt) < 3 ->
  decode_transition_magic (Some magic) out = (false, out).
Proof.
  unfold decode_transition_magic.
  destruct (sscanf magic transition_magic_fmt) as [res assigned]. simpl fst.
  intros Hres. destruct (res =? EOF); [reflexivity|].
  apply Z.ltb_lt in Hres. rewrite Hres. reflexivity.
Qed.

(** Claim C8, as amended: for every transition-magic string that lacks the
    semicolon or whose initial split yields fewer than three items,
    [decode_transition_magic] fails and stores nothing: each of the six
    outputs still holds the value the caller's variable had before the
    call. *)
Theorem decode_transition_magic_incomplete (magic : cstr) (out : magic_out) :
  ~ In ";"%char magic \/ fst (sscanf magic transition_magic_fmt) < 3 ->
  decode_transition_magic (Some magic) out = (false, out).
Proof.
  intros [H|H]; apply decode_transition_magic_short;
    [apply sscanf_magic_no_semicolon; exact H | exact H].
Qed.

Lemma decode_transition_magic_incomplete_witness :
  decode_transition_magic (Some (lit "0:0"))
    (mk_magic_out (Some (lit "old")) 7 7 7 7 7)
  = (false, mk_magic_out (Some (lit "old")) 7 7 7 7 7).
Proof.
  apply (decode_transition_magic_incomplete (lit "0:0")).
  left. vm_compute. intuition discriminate.
Defined.

(** Claim C8, as stated, fails for the magic "0:0" when the caller's
    variables hold other values than -1 and NULL: the call fails and the
    outputs keep those values. *)
Lemma decode_transition_magic_keeps_outputs :
  ~ In ";"%char (lit "0:0")
  /\ decode_transition_magic (Some (lit "0:0"))
       (mk_magic_out (Some (lit "old")) 7 7 7 7 7)
     = (false, mk_magic_out (Some (lit "old")) 7 7 7 7 7)
  /\ mk_magic_out (Some (lit "old")) 7 7 7 7 7
     <> mk_magic_out None (-1) (-1) (-1) (-1) (-1).
Proof.
  split; [vm_compute; intuition discriminate|].
  split; [vm_compute; reflexivity | discriminate].
Qed.

(** ** Result classification *)

(** Claim C1: [did_rsc_op_fail] is false when the status is pending or
    cancelled, true when it is not-supported, timeout, error, not-connected
    or invalid, and for every other status (done included) it is true
    exactly when the actual return code differs from the target. *)
Theorem did_rsc_op_fail_classification
    (status : op_status_t) (rc target_rc : Z) (data : option cstr) :
  let op := mk_lrmd_event_data status rc data in
  (In status [PCMK_LRM_OP_PENDING; PCMK_LRM_OP_CANCELLED] ->
   did_rsc_op_fail op target_rc = false)
  /\ (In status [PCMK_LRM_OP_NOTSUPPORTED; PCMK_LRM_OP_TIMEOUT;
                 PCMK_LRM_OP_ERROR; PCMK_LRM_OP_NOT_CONNECTED;
                 PCMK_LRM_OP_INVALID] ->
      did_rsc_op_fail op target_rc = true)
  /\ (~ In status [PCMK_LRM_OP_PENDING; PCMK_LRM_OP_CANCELLED;
                   PCMK_LRM_OP_NOTSUPPORTED; PCMK_LRM_OP_TIMEOUT;
                   PCMK_LRM_OP_ERROR; PCMK_LRM_OP_NOT_CONNECTED;
                   PCMK_LRM_OP_INVALID] ->
      (did_rsc_op_fail op target_rc = true <-> rc <> target_rc)).
Proof.
  assert (Hdefault :
            (if negb (target_rc =? rc) then true else false) = true
            <-> rc <> target_rc).
  { destruct (Z.eqb_spec target_rc rc); simpl; split; congruence. }
  destruct status; unfold did_rsc_op_fail; simpl;
    (split; [|split]); intros H;
    solve [ reflexivity | exact Hdefault | exfalso; intuition congruence ].
Qed.

(** ** Meta-data requirement *)

Lemma strcmp_ne_false (a b : cstr) : strcmp_ne a b = false <-> a = b.
Proof.
  unfold strcmp_ne. rewrite negb_false_iff. apply cstr_eqb_eq.
Qed.

Lemma needs_metadata_some (caps : cstr -> Z) (params : Z) (class op : cstr) :
  Z.land (caps class) params <> 0 ->
  crm_op_needs_metadata caps params (Some class) (Some op)
  = negb (strcmp_ne op CRMD_ACTION_START
          && strcmp_ne op CRMD_ACTION_STATUS
          && strcmp_ne op CRMD_ACTION_PROMOTE
          && strcmp_ne op CRMD_ACTION_DEMOTE
          && strcmp_ne op CRMD_ACTION_RELOAD
          && strcmp_ne op CRMD_ACTION_MIGRATE
          && strcmp_ne op CRMD_ACTION_MIGRATED
          && strcmp_ne op CRMD_ACTION_NOTIFY).
Proof.
  intros Hcap. unfold crm_op_needs_metadata, is_not_set.
  apply Z.eqb_neq in Hcap. rewrite Hcap. simpl.
  unfold strcmp_ne. rewrite !andb_assoc.
  destruct (negb (cstr_eqb op CRMD_ACTION_START) && _); reflexivity.
Qed.

(** Claim C5, as amended: for every resource class whose capabilities
    include parameter support, [crm_op_needs_metadata] is true for a NULL
    action (the action check is skipped), and for a given action it is true
    exactly when the action equals, character for character, one of start,
    monitor, promote, demote, reload, migrate_to, migrate_from and
    notify. *)
Theorem crm_op_needs_metadata_actions
    (pcmk_get_ra_caps : cstr -> Z) (pcmk_ra_cap_params : Z) (class : cstr) :
  Z.land (pcmk_get_ra_caps class) pcmk_ra_cap_params <> 0 ->
  crm_op_needs_metadata pcmk_get_ra_caps pcmk_ra_cap_params (Some class) None
  = true
  /\ forall op : cstr,
       crm_op_needs_metadata pcmk_get_ra_caps pcmk_ra_cap_params
         (Some class) (Some op) = true
       <-> In op metadata_actions.
Proof.
  intros Hcap. split.
  - unfold crm_op_needs_metadata, is_not_set.
    apply Z.eqb_neq in Hcap. rewrite Hcap. reflexivity.
  - intros op. rewrite (needs_metadata_some _ _ _ _ Hcap).
    rewrite negb_true_iff, !andb_false_iff, !strcmp_ne_false.
    unfold metadata_actions. simpl In. intuition congruence.
Qed.

Lemma crm_op_needs_metadata_actions_witness :
  crm_op_needs_metadata (fun _ => 4) 4 (Some (lit "ocf")) None = true
  /\ forall op : cstr,
       crm_op_needs_metadata (fun _ => 4) 4 (Some (lit "ocf")) (Some op) = true
       <-> In op metadata_actions.
Proof.
  apply (crm_op_needs_metadata_actions (fun _ => 4) 4 (lit "ocf")).
  vm_compute. discriminate.
Defined.

(** Claim C5, as stated, fails for a NULL action with a class that supports
    parameters: the result is true, not false. *)
Lemma crm_op_needs_metadata_null_action :
  Z.land ((fun _ : cstr => 4) (lit "ocf")) 4 <> 0
  /\ crm_op_needs_metadata (fun _ => 4) 4 (Some (lit "ocf")) None = true.
Proof. split; [vm_compute; discriminate | reflexivity]. Qed.

(** ** Digest filter *)

Ltac in_head :=
  match goal with
  | Hin : _ ∈ _ :: _ |- _ =>
      apply elem_of_cons in Hin as [Hin|Hin]; [|contradiction]
  end.

Lemma lookup_fold_remove (names : list cstr) :
  forall (m : xml_attrs) (k : cstr),
    fold_left xml_remove_prop names m !! k
    = if bool_decide (k ∈ names) then None else m !! k.
Proof.
  induction names as [|n names IH]; intros m k; simpl.
  - reflexivity.
  - rewrite IH. unfold xml_remove_prop.
    repeat case_bool_decide; try reflexivity.
    + exfalso. set_solver.
    + assert (k = n) as Hkn by (in_head; assumption). subst k. apply lookup_delete_eq.
    + apply lookup_delete_ne. set_solver.
Qed.

Lemma lookup_remove_meta_attrs (names : list cstr) :
  forall (m : xml_attrs) (k : cstr),
    remove_meta_attrs names m !! k
    = if is_meta k && bool_decide (k ∈ names) then None else m !! k.
Proof.
  induction names as [|n names IH]; intros m k.
  - simpl. rewrite andb_false_r. reflexivity.
  - change (remove_meta_attrs (n :: names) m)
      with (remove_meta_attrs names
              (if is_meta n then xml_remove_prop m n else m)).
    rewrite IH. unfold xml_remove_prop.
    destruct (is_meta k) eqn:Hk; simpl andb; cbv iota.
    + repeat case_bool_decide; try reflexivity.
      * exfalso. set_solver.
      * assert (k = n) as Hkn by (in_head; assumption). subst k.
        rewrite Hk. apply lookup_delete_eq.
      * destruct (is_meta n); [|reflexivity].
        apply lookup_delete_ne. set_solver.
    + destruct (is_meta n) eqn:Hn; [|reflexivity].
      apply lookup_delete_ne. intros ->. congruence.
Qed.

(** After the loop over all attributes no meta-attribute is left and the
    other attributes are unchanged. *)
Lemma lookup_remove_meta_all (m : xml_attrs) (k : cstr) :
  remove_meta_attrs (map fst (map_to_list m)) m !! k
  = if is_meta k then None else m !! k.
Proof.
  rewrite lookup_remove_meta_attrs.
  destruct (is_meta k); simpl; [|reflexivity].
  destruct (m !! k) as [v|] eqn:E.
  - rewrite bool_decide_eq_true_2; [reflexivity|].
    apply list_elem_of_In, in_map_iff. exists (k, v). split; [reflexivity|].
    apply list_elem_of_In, elem_of_map_to_list. exact E.
  - destruct (bool_decide _); reflexivity.
Qed.

Lemma interval_key_kept : interval_key ∉ attr_filter.
Proof.
  unfold attr_filter. rewrite list_elem_of_In. vm_compute.
  intuition discriminate.
Qed.

Lemma timeout_key_kept : timeout_key ∉ attr_filter.
Proof.
  unfold attr_filter. rewrite list_elem_of_In. vm_compute.
  intuition discriminate.
Qed.

Lemma interval_key_meta : is_meta interval_key = true.
Proof. vm_compute. reflexivity. Qed.

Lemma timeout_key_meta : is_meta timeout_key = true.
Proof. vm_compute. reflexivity. Qed.

Section DigestFilterFacts.

Variable parse_ms : cstr -> option Z.

(** The parameter set left by the filter. *)
Definition filtered (params : xml_attrs) : xml_attrs :=
  default params (pcmk__filter_op_for_digest parse_ms (Some params)).

(** Whether the filter adds the timeout back. *)
Definition keeps_timeout (params : xml_attrs) : bool :=
  negb (interval_of parse_ms params =? 0)
  && bool_decide (is_Some (params !! timeout_key)).

Lemma filter_some (params : xml_attrs) :
  pcmk__filter_op_for_digest parse_ms (Some params)
  = Some (filtered params).
Proof.
  unfold filtered, pcmk__filter_op_for_digest.
  destruct (crm_element_value_ms _ _ _) as [status value].
  destruct (crm_element_value_copy _ _); [|reflexivity].
  destruct (negb _); reflexivity.
Qed.

Lemma filtered_lookup (params : xml_attrs) (k : cstr) :
  filtered params !! k
  = if keeps_timeout params && bool_decide (k = timeout_key)
    then params !! timeout_key
    else if is_meta k || bool_decide (k ∈ attr_filter) then None
    else params !! k.
Proof.
  unfold filtered, pcmk__filter_op_for_digest, keeps_timeout, interval_of.
  fold interval_key timeout_key.
  set (p1 := fold_left xml_remove_prop attr_filter params).
  assert (Hint : p1 !! interval_key = params !! interval_key).
  { unfold p1. rewrite lookup_fold_remove.
    rewrite (bool_decide_eq_false_2 _ interval_key_kept). reflexivity. }
  assert (Hto : p1 !! timeout_key = params !! timeout_key).
  { unfold p1. rewrite lookup_fold_remove.
    rewrite (bool_decide_eq_false_2 _ timeout_key_kept). reflexivity. }
  assert (Hms : crm_element_value_ms parse_ms p1 interval_key
                = crm_element_value_ms parse_ms params interval_key).
  { unfold crm_element_value_ms. rewrite Hint. reflexivity. }
  rewrite Hms.
  destruct (crm_element_value_ms parse_ms params interval_key)
    as [status value].
  unfold crm_element_value_copy. rewrite Hto.
  assert (Hbase : remove_meta_attrs (map fst (map_to_list p1)) p1 !! k
                  = if is_meta k || bool_decide (k ∈ attr_filter) then None
                    else params !! k).
  { rewrite lookup_remove_meta_all. destruct (is_meta k); [reflexivity|].
    unfold p1. rewrite lookup_fold_remove. reflexivity. }
  destruct (params !! timeout_key) as [t|] eqn:Et.
  - rewrite bool_decide_eq_true_2 by eauto. rewrite andb_true_r.
    destruct (negb ((if negb (status =? pcmk_ok) then 0 else value) =? 0));
      simpl default; simpl andb.
    + unfold crm_xml_add. destruct (decide (k = timeout_key)) as [->|Hne].
      * rewrite bool_decide_eq_true_2 by reflexivity.
        apply lookup_insert_eq.
      * rewrite (bool_decide_eq_false_2 _ Hne).
        rewrite lookup_insert_ne by congruence. exact Hbase.
    + exact Hbase.
  - rewrite (bool_decide_eq_false_2 (is_Some None)) by (intros [? ?]; discriminate).
    rewrite andb_false_r. simpl. exact Hbase.
Qed.

(** The filter's result holds neither the interval attribute nor, once
    the timeout has not been added back, the timeout attribute. *)
Lemma filtered_no_interval (params : xml_attrs) :
  filtered params !! interval_key = None.
Proof.
  rewrite filtered_lookup.
  rewrite (bool_decide_eq_false_2 (interval_key = timeout_key))
    by (vm_compute; discriminate).
  rewrite andb_false_r, interval_key_meta. reflexivity.
Qed.

Lemma filtered_keeps_nothing (params : xml_attrs) :
  keeps_timeout (filtered params) = false.
Proof.
  unfold keeps_timeout, interval_of, crm_element_value_ms.
  rewrite filtered_no_interval. reflexivity.
Qed.

(** A second run of the filter only removes the timeout attribute. *)
Lemma filtered_twice (params : xml_attrs) :
  filtered (filtered params) = delete timeout_key (filtered params).
Proof.
  apply map_eq. intros k.
  rewrite (filtered_lookup (filtered params)), filtered_keeps_nothing.
  simpl andb. cbv iota.
  destruct (decide (k = timeout_key)) as [->|Hne].
  - rewrite timeout_key_meta, lookup_delete_eq. reflexivity.
  - rewrite lookup_delete_ne by congruence.
    rewrite filtered_lookup.
    rewrite (bool_decide_eq_false_2 _ Hne), andb_false_r.
    destruct (is_meta k || bool_decide (k ∈ attr_filter)); reflexivity.
Qed.

Lemma filtered_idempotent (params : xml_attrs) :
  keeps_timeout params = false -> filtered (filtered params) = filtered params.
Proof.
  intros Hk. rewrite filtered_twice. apply delete_id.
  rewrite filtered_lookup, Hk. simpl andb. cbv iota.
  rewrite timeout_key_meta. reflexivity.
Qed.

End DigestFilterFacts.

Lemma interval_of_zero (parse_ms : cstr -> option Z) (params : xml_attrs) :
  params !! interval_key = None
  \/ (exists text, params !! interval_key = Some text
                   /\ (parse_ms text = None \/ parse_ms text = Some 0)) ->
  interval_of parse_ms params = 0.
Proof.
  unfold interval_of, crm_element_value_ms.
  intros [->|(text & -> & [->| ->])]; reflexivity.
Qed.

(** Claim C6, as amended: for every parameter set from which the filter
    reads an interval of 0 (attribute absent, unparseable or zero) or that
    has no timeout meta-attribute, running [pcmk__filter_op_for_digest] on
    its own result changes nothing. (When the timeout is added back, a
    second run removes it: see [filtered_twice].) *)
Theorem filter_op_for_digest_idempotent
    (parse_ms : cstr -> option Z) (params : xml_attrs) :
  interval_of parse_ms params = 0 \/ params !! timeout_key = None ->
  pcmk__filter_op_for_digest parse_ms
    (pcmk__filter_op_for_digest parse_ms (Some params))
  = pcmk__filter_op_for_digest parse_ms (Some params).
Proof.
  intros H. rewrite !filter_some. f_equal. apply filtered_idempotent.
  unfold keeps_timeout. destruct H as [-> | ->]; [reflexivity|].
  rewrite (bool_decide_eq_false_2 (is_Some None))
    by (intros [? ?]; discriminate).
  apply andb_false_r.
Qed.

Lemma filter_op_for_digest_idempotent_witness :
  pcmk__filter_op_for_digest decimal_ms
    (pcmk__filter_op_for_digest decimal_ms (Some oneshot_params))
  = pcmk__filter_op_for_digest decimal_ms (Some oneshot_params).
Proof.
  apply (filter_op_for_digest_idempotent decimal_ms oneshot_params).
  left. vm_compute. reflexivity.
Defined.

(** Claim C6, as stated, fails for a recurring operation with a timeout:
    the first run keeps the timeout attribute, the second run, which no
    longer finds the interval, removes it. *)
Lemma filter_op_for_digest_second_run_differs :
  attr_of (pcmk__filter_op_for_digest decimal_ms (Some recurring_params))
          timeout_key = Some (lit "20000")
  /\ attr_of (pcmk__filter_op_for_digest decimal_ms
                (pcmk__filter_op_for_digest decimal_ms (Some recurring_params)))
             timeout_key = None.
Proof. split; vm_compute; reflexivity. Qed.

(** Claim C7: when the interval meta-attribute parses to a non-zero value
    and the timeout meta-attribute is present, the filtered set holds the
    timeout attribute with its original value; when the interval is absent,
    unparseable or zero, the filtered set holds no timeout attribute. *)
Theorem filter_op_for_digest_timeout
    (parse_ms : cstr -> option Z) (params : xml_attrs) :
  (forall (text : cstr) (ms : Z) (t : cstr),
      params !! interval_key = Some text -> parse_ms text = Some ms ->
      ms <> 0 -> params !! timeout_key = Some t ->
      attr_of (pcmk__filter_op_for_digest parse_ms (Some params)) timeout_key
      = Some t)
  /\ (params !! interval_key = None
      \/ (exists text, params !! interval_key = Some text
                       /\ (parse_ms text = None \/ parse_ms text = Some 0)) ->
      attr_of (pcmk__filter_op_for_digest parse_ms (Some params)) timeout_key
      = None).
Proof.
  rewrite filter_some. simpl attr_of. rewrite filtered_lookup.
  rewrite bool_decide_eq_true_2 by reflexivity. rewrite andb_true_r.
  rewrite timeout_key_meta. simpl orb. cbv iota. split.
  - intros text ms t Hi Hp Hms Ht.
    unfold keeps_timeout, interval_of, crm_element_value_ms.
    rewrite Hi, Hp, Ht.
    rewrite bool_decide_eq_true_2 by eauto.
    apply Z.eqb_neq in Hms. simpl. rewrite Hms. reflexivity.
  - intros H. unfold keeps_timeout.
    rewrite (interval_of_zero parse_ms params H). reflexivity.
Qed.

Lemma filter_op_for_digest_timeout_witness :
  attr_of (pcmk__filter_op_for_digest decimal_ms (Some recurring_params))
          timeout_key = Some (lit "20000")
  /\ attr_of (pcmk__filter_op_for_digest decimal_ms (Some oneshot_params))
             timeout_key = None.
Proof.
  split.
  - apply (proj1 (filter_op_for_digest_timeout decimal_ms recurring_params)
             (lit "60000") 60000 (lit "20000"));
      solve [vm_compute; reflexivity | discriminate].
  - apply (proj2 (filter_op_for_digest_timeout decimal_ms oneshot_params)).
    right. exists (lit "0"). split; [vm_compute; reflexivity|].
    right. reflexivity.
Defined.

(** * Further properties *)

(** ** Vocabulary of the further statements *)

(** What a scanned transition key holds: [int] values and a UUID of 1 to
    36 characters without white space. *)
Definition key_field_ok (x : scanned) : Prop :=
  match x with
  | ArgInt z => INT_MIN <= z <= INT_MAX
  | ArgStr u => (1 <= length u <= 36)%nat /\ no_space u
  end.

(** The three numbers of a transition key followed by a field [field]. *)
Definition key_with_field
    (transition_id action_id target_rc : Z) (field : cstr) : cstr :=
  itoa action_id ++ lit ":" ++ itoa transition_id ++ lit ":"
  ++ itoa target_rc ++ lit ":" ++ field.

(** ** Operation keys: what [parse_op_key] accepts *)

(** Any key of the shape [pre "_" action "_" digits] is accepted: the
    action is the text between the last two underscores, the interval is
    the value of the digit run reduced modulo 2^32, and the resource id is
    [pre] with a trailing notify marker stripped. *)
Lemma parse_op_key_accepts (pre act ds : cstr) :
  ~ In "_"%char act -> all_digits ds -> ds <> [] ->
  parse_op_key (Some (pre ++ "_"%char :: act ++ "_"%char :: ds))
  = Some (true,
          mk_op_key_out
            (Some (strip_notify (lit "_pre_notify")
                     (strip_notify (lit "_post_notify") pre)))
            (Some act) (dec_val ds mod 2 ^ 32)).
Proof.
  intros Ha Hds Hne.
  set (front := pre ++ "_"%char :: act).
  assert (Ekey : pre ++ "_"%char :: act ++ "_"%char :: ds
                 = front ++ "_"%char :: ds ++ []).
  { unfold front. rewrite app_nil_r, <- app_assoc. reflexivity. }
  rewrite Ekey.
  destruct (scan_interval_digits ds front [] "_"%char 0 Hds eq_refl)
    as (v & Ev & Hv & Hrange).
  specialize (Hrange Hne).
  assert (Hv' : v = dec_val ds mod 2 ^ 32).
  { rewrite Z.mod_small in Hv by lia. rewrite Hv. simpl.
    rewrite Z.mul_1_r. reflexivity. }
  subst v.
  unfold parse_op_key.
  destruct (front ++ "_"%char :: ds ++ []) as [|k0 key] eqn:Ek.
  { destruct front; discriminate. }
  cbv beta iota. rewrite <- Ek in Ev |- *. cbv zeta.
  assert (Elast : (length (front ++ "_"%char :: ds ++ []) - 1)%nat
                  = (length front + length ds)%nat).
  { rewrite length_app. simpl. rewrite app_nil_r. lia. }
  rewrite Elast, Ev.
  assert (Hneq : (length front =? length front + length ds)%nat = false).
  { apply Nat.eqb_neq. destruct ds; [congruence | simpl; lia]. }
  rewrite Hneq, char_at_app, ascii_eqb_refl. simpl negb. simpl andb. cbv iota.
  assert (Elen : length front = S (length pre + length act)).
  { unfold front. rewrite length_app. simpl. lia. }
  rewrite Elen.
  assert (Efirst : firstn (S (length pre + length act))
                          (front ++ "_"%char :: ds ++ []) = front).
  { rewrite <- Elen. rewrite firstn_app, Nat.sub_diag, firstn_all. simpl.
    apply app_nil_r. }
  rewrite Efirst.
  assert (Escan : scan_action (front ++ "_"%char :: ds ++ [])
                              (length pre + length act)
                  = length pre).
  { unfold front. rewrite <- app_assoc. simpl app.
    apply (scan_action_word act pre ("_"%char :: ds ++ [])). exact Ha. }
  rewrite Escan.
  assert (Hat : char_at (front ++ "_"%char :: ds ++ []) (length pre) = "_"%char).
  { unfold front. rewrite <- app_assoc. simpl app. apply char_at_app. }
  rewrite Hat, ascii_eqb_refl.
  assert (Eop : skipn (length pre + 1) front = act).
  { unfold front. rewrite skipn_app.
    rewrite skipn_all2 by lia.
    replace (length pre + 1 - length pre)%nat with 1%nat by lia.
    reflexivity. }
  assert (Epre : firstn (length pre) front = pre).
  { unfold front. rewrite firstn_app, Nat.sub_diag, firstn_all. simpl.
    apply app_nil_r. }
  rewrite Eop, Epre. reflexivity.
Qed.



(** Property X2: a resource id may contain underscores. As long as it
    contains neither notify marker, the key built by [pcmk__op_key] from
    it, an action without underscore and a [guint] interval decodes to the
    same three values. *)
Theorem parse_op_key_roundtrip_underscores
    (rsc_id op_type : cstr) (interval_ms : Z) :
  strstr rsc_id (lit "_post_notify") = None ->
  strstr rsc_id (lit "_pre_notify") = None ->
  ~ In "_"%char op_type ->
  0 <= interval_ms <= G_MAXUINT ->
  parse_op_key (pcmk__op_key (Some rsc_id) (Some op_type) interval_ms)
  = Some (true, mk_op_key_out (Some rsc_id) (Some op_type) interval_ms).
Proof.
  intros Hpost Hpre Ho Hi. unfold G_MAXUINT in Hi.
  destruct (utoa_spec interval_ms) as (Hds & Hne & Hval); [lia|].
  unfold pcmk__op_key, PCMK__OP_FMT.
  change (lit "_") with ["_"%char]. simpl app.
  rewrite (parse_op_key_accepts rsc_id op_type (utoa interval_ms) Ho Hds Hne).
  unfold strip_notify at 2. rewrite Hpost.
  unfold strip_notify. rewrite Hpre.
  rewrite Hval, Z.mod_small by lia. reflexivity.
Qed.

Lemma parse_op_key_roundtrip_underscores_witness :
  parse_op_key (pcmk__op_key (Some (lit "my_web_site")) (Some (lit "start")) 0)
  = Some (true, mk_op_key_out (Some (lit "my_web_site")) (Some (lit "start")) 0).
Proof.
  apply (parse_op_key_roundtrip_underscores (lit "my_web_site") (lit "start") 0).
  - vm_compute. reflexivity.
  - vm_compute. reflexivity.
  - vm_compute. intuition discriminate.
  - unfold G_MAXUINT. lia.
Defined.

Lemma strstr_skip (c : ascii) (marker front back : cstr) :
  ~ In c front ->
  strstr (front ++ back) (c :: marker)
  = option_map (Nat.add (length front)) (strstr back (c :: marker)).
Proof.
  induction front as [|y front IH]; intros Hin.
  - simpl app. destruct (strstr back (c :: marker)); reflexivity.
  - simpl app. cbn [strstr is_prefix].
    assert (E : ascii_eqb c y = false).
    { apply ascii_eqb_neq. intros ->. apply Hin. left. reflexivity. }
    rewrite E. simpl andb. cbv iota.
    rewrite IH by (intros H; apply Hin; right; exact H).
    destruct (strstr back (c :: marker)); reflexivity.
Qed.

Lemma strip_notify_suffix (rsc_id : cstr) (marker : cstr) :
  ~ In "_"%char rsc_id ->
  strstr ("_"%char :: marker) ("_"%char :: marker) = Some 0%nat ->
  strip_notify ("_"%char :: marker) (rsc_id ++ "_"%char :: marker) = rsc_id.
Proof.
  intros Hr Hself. unfold strip_notify.
  rewrite (strstr_skip "_"%char marker rsc_id _ Hr), Hself. simpl option_map.
  rewrite Nat.add_0_r, skipn_app, Nat.sub_diag, skipn_all. simpl app.
  assert (E : safe_str_eq ("_"%char :: marker) ("_"%char :: marker) = true).
  { apply cstr_eqb_eq. reflexivity. }
  rewrite E, firstn_app, Nat.sub_diag, firstn_all. simpl. apply app_nil_r.
Qed.

Lemma strip_notify_other (rsc_id marker other : cstr) :
  ~ In "_"%char rsc_id ->
  strstr ("_"%char :: other) ("_"%char :: marker) = None ->
  strip_notify ("_"%char :: marker) (rsc_id ++ "_"%char :: other)
  = rsc_id ++ "_"%char :: other.
Proof.
  intros Hr Hnone. unfold strip_notify.
  rewrite (strstr_skip "_"%char marker rsc_id _ Hr), Hnone. reflexivity.
Qed.

(** Property X3: a notify key decodes to the resource and the operation it
    was built from. For a resource id and an operation name without
    underscore and the notify type "pre" or "post", [parse_op_key] applied
    to the result of [pcmk__notify_key] succeeds with the resource id (the
    notify marker stripped), the operation name and interval 0. *)
Theorem parse_notify_key_roundtrip (rsc_id notify_type op_type : cstr) :
  ~ In "_"%char rsc_id -> ~ In "_"%char op_type ->
  notify_type = lit "pre" \/ notify_type = lit "post" ->
  parse_op_key (pcmk__notify_key (Some rsc_id) (Some notify_type) (Some op_type))
  = Some (true, mk_op_key_out (Some rsc_id) (Some op_type) 0).
Proof.
  intros Hr Ho Hn. unfold pcmk__notify_key.
  assert (E : rsc_id ++ lit "_" ++ notify_type ++ lit "_notify_" ++ op_type
              ++ lit "_0"
              = (rsc_id ++ lit "_" ++ notify_type ++ lit "_notify")
                ++ "_"%char :: op_type ++ "_"%char :: lit "0").
  { destruct Hn as [-> | ->]; rewrite <- !app_assoc; reflexivity. }
  rewrite E.
  rewrite (parse_op_key_accepts _ op_type (lit "0") Ho);
    [| repeat constructor | discriminate].
  destruct Hn as [-> | ->].
  - change (rsc_id ++ lit "_" ++ lit "pre" ++ lit "_notify")
      with (rsc_id ++ "_"%char :: lit "pre_notify").
    change (lit "_post_notify") with ("_"%char :: lit "post_notify").
    change (lit "_pre_notify") with ("_"%char :: lit "pre_notify").
    rewrite (strip_notify_other rsc_id _ _ Hr) by reflexivity.
    rewrite (strip_notify_suffix rsc_id _ Hr) by reflexivity.
    reflexivity.
  - change (rsc_id ++ lit "_" ++ lit "post" ++ lit "_notify")
      with (rsc_id ++ "_"%char :: lit "post_notify").
    change (lit "_post_notify") with ("_"%char :: lit "post_notify").
    change (lit "_pre_notify") with ("_"%char :: lit "pre_notify").
    rewrite (strip_notify_suffix rsc_id _ Hr) by reflexivity.
    rewrite (strip_notify_absent "_"%char _ rsc_id Hr).
    reflexivity.
Qed.

Lemma parse_notify_key_roundtrip_witness :
  parse_op_key
    (pcmk__notify_key (Some (lit "db")) (Some (lit "post")) (Some (lit "promote")))
  = Some (true, mk_op_key_out (Some (lit "db")) (Some (lit "promote")) 0).
Proof.
  apply (parse_notify_key_roundtrip (lit "db") (lit "post") (lit "promote")).
  - vm_compute. intuition discriminate.
  - vm_compute. intuition discriminate.
  - right. reflexivity.
Defined.

(** ** Operation keys: what [parse_op_key] rejects and what it returns *)

Lemma scan_interval_bounds (key : cstr) (len : nat) :
  forall (offset : nat) (acc : Z) (o : nat) (v : Z),
    scan_interval key len offset acc = (o, v) ->
    (o <= offset)%nat
    /\ (forall i, (o < i <= offset)%nat -> isdigit (char_at key i) = true)
    /\ (0 <= acc < 2 ^ 32 -> 0 <= v < 2 ^ 32).
Proof.
  induction offset as [|offset IH]; intros acc o v E.
  - simpl in E. injection E as <- <-. repeat split; try lia.
  - rewrite scan_interval_unfold in E.
    destruct (isdigit (char_at key (S offset))) eqn:Hd.
    + apply IH in E as (Hle & Hdig & Hrange). repeat split; try lia.
      * intros i Hi. destruct (Nat.eq_dec i (S offset)) as [->|Hne];
          [exact Hd | apply Hdig; lia].
      * apply Hrange. apply Z.mod_pos_bound. lia.
      * apply Hrange. apply Z.mod_pos_bound. lia.
    + injection E as <- <-. repeat split; try lia.
Qed.





(** Property X5: [parse_op_key] rejects a NULL key, an empty key, a key of
    a single character, and every key whose last character is not a
    decimal digit; in each of these cases all three outputs hold their
    initial values (NULL, NULL, 0). *)
Theorem parse_op_key_rejects :
  let initial := mk_op_key_out None None 0 in
  parse_op_key None = Some (false, initial)
  /\ parse_op_key (Some []) = Some (false, initial)
  /\ (forall c : ascii, parse_op_key (Some [c]) = Some (false, initial))
  /\ (forall key : cstr,
        key <> [] ->
        isdigit (char_at key (length key - 1)) = false ->
        parse_op_key (Some key) = Some (false, initial)).
Proof.
  repeat split; try reflexivity.
  intros key Hne Hlast. destruct key as [|k0 key']; [congruence|].
  remember (k0 :: key') as k eqn:Ek.
  unfold parse_op_key. rewrite Ek. cbv beta iota. rewrite <- Ek. cbv zeta.
  destruct (length k - 1)%nat as [|n] eqn:En.
  - reflexivity.
  - rewrite scan_interval_unfold, Hlast, Nat.eqb_refl. reflexivity.
Qed.

(** Property X6: whatever the key, the interval that [parse_op_key] stores
    is within the range of [guint], and the resource id and the action are
    stored exactly when the result is TRUE (both are NULL on failure). *)
Theorem parse_op_key_outputs
    (key : option cstr) (result : bool) (out : op_key_out) :
  parse_op_key key = Some (result, out) ->
  0 <= out_interval_ms out <= G_MAXUINT
  /\ (result = true -> is_Some (out_rsc_id out) /\ is_Some (out_op_type out))
  /\ (result = false -> out_rsc_id out = None /\ out_op_type out = None).
Proof.
  unfold G_MAXUINT. intros H.
  destruct key as [[|k0 key']|];
    try (injection H as <- <-; simpl; repeat split; (lia || discriminate)).
  remember (k0 :: key') as k eqn:Ek.
  unfold parse_op_key in H. rewrite Ek in H. cbv beta iota in H.
  rewrite <- Ek in H. cbv zeta in H.
  destruct (scan_interval k (length k) (length k - 1) 0) as [o v] eqn:Es.
  destruct (scan_interval_bounds _ _ _ _ _ _ Es) as (_ & _ & Hrange).
  assert (Hv : 0 <= v < 2 ^ 32) by (apply Hrange; lia).
  destruct (negb (o =? length k - 1)%nat && ascii_eqb (char_at k o) "_"%char).
  - destruct o as [|o1]; [discriminate|].
    destruct (ascii_eqb (char_at k (scan_action k o1)) "_"%char);
      injection H as <- <-; simpl; repeat split;
      (lia || discriminate || eauto).
  - injection H as <- <-; simpl; repeat split; (lia || discriminate).
Qed.

Lemma parse_op_key_outputs_witness :
  0 <= out_interval_ms (mk_op_key_out None None 123) <= G_MAXUINT
  /\ (false = true ->
      is_Some (out_rsc_id (mk_op_key_out None None 123))
      /\ is_Some (out_op_type (mk_op_key_out None None 123)))
  /\ (false = false ->
      out_rsc_id (mk_op_key_out None None 123) = None
      /\ out_op_type (mk_op_key_out None None 123) = None).
Proof.
  apply (parse_op_key_outputs (Some (lit "abc123"))).
  vm_compute. reflexivity.
Defined.

(** Property X7: [pcmk__op_key] never gives two operations the same key:
    for resource ids and actions without underscore and [guint] intervals,
    equal keys come from equal resource ids, actions and intervals. *)
Theorem pcmk__op_key_injective
    (rsc1 op1 rsc2 op2 : cstr) (interval1 interval2 : Z) :
  ~ In "_"%char rsc1 -> ~ In "_"%char op1 ->
  ~ In "_"%char rsc2 -> ~ In "_"%char op2 ->
  0 <= interval1 <= G_MAXUINT -> 0 <= interval2 <= G_MAXUINT ->
  pcmk__op_key (Some rsc1) (Some op1) interval1
  = pcmk__op_key (Some rsc2) (Some op2) interval2 ->
  rsc1 = rsc2 /\ op1 = op2 /\ interval1 = interval2.
Proof.
  intros Hr1 Ho1 Hr2 Ho2 Hi1 Hi2 E.
  apply (f_equal parse_op_key) in E.
  rewrite (parse_op_key_encoded rsc1 op1 interval1 Hr1 Ho1 Hi1) in E.
  rewrite (parse_op_key_encoded rsc2 op2 interval2 Hr2 Ho2 Hi2) in E.
  injection E as -> -> ->. auto.
Qed.

Lemma pcmk__op_key_injective_witness :
  lit "rsc" = lit "rsc" /\ lit "start" = lit "start" /\ 0 = 0.
Proof.
  apply (pcmk__op_key_injective (lit "rsc") (lit "start") (lit "rsc")
           (lit "start") 0 0);
    first [ reflexivity
          | unfold G_MAXUINT; lia
          | vm_compute; intuition discriminate ].
Defined.

(** ** Transition keys: what [decode_transition_key] returns *)

Lemma to_int_range (z : Z) : INT_MIN <= to_int z <= INT_MAX.
Proof.
  unfold to_int, INT_MIN, INT_MAX.
  pose proof (Z.mod_pos_bound (z + 2 ^ 31) (2 ^ 32)). lia.
Qed.

Lemma scan_d_range (s r : cstr) (v : Z) :
  scan_d s = Converted v r -> INT_MIN <= v <= INT_MAX.
Proof.
  unfold scan_d. destruct (skip_space s) as [|c s1]; [discriminate|].
  cbv zeta.
  destruct (if ascii_eqb c "-"%char || ascii_eqb c "+"%char then s1 else c :: s1)
    as [|d s2] eqn:E2; [discriminate|].
  destruct (isdigit d); [|discriminate].
  destruct (scan_digits (d :: s2) 0) as [v0 r0].
  intros [= <- _]. apply to_int_range.
Qed.

Lemma skip_space_head (s s' : cstr) (c : ascii) :
  skip_space s = c :: s' -> isspace c = false.
Proof.
  induction s as [|x s IH]; simpl; [discriminate|].
  destruct (isspace x) eqn:E; [exact IH|].
  intros [= <- _]. exact E.
Qed.

Lemma scan_token_props (w : nat) :
  forall s t r : cstr,
    scan_token w s = (t, r) ->
    (length t <= w)%nat /\ no_space t /\ s = t ++ r.
Proof.
  induction w as [|w IH]; intros s t r E.
  - assert (E' : ([] : cstr, s) = (t, r)) by (destruct s; exact E).
    injection E' as <- <-. repeat split; [simpl; lia | constructor].
  - destruct s as [|c s]; simpl in E.
    + injection E as <- <-. repeat split; [simpl; lia | constructor].
    + destruct (isspace c) eqn:Hc.
      * injection E as <- <-. repeat split; [simpl; lia | constructor].
      * destruct (scan_token w s) as [t' r'] eqn:E'.
        injection E as <- <-.
        destruct (IH _ _ _ E') as (Hlen & Hns & ->).
        repeat split; [simpl; lia | constructor; assumption].
Qed.

Lemma scan_s_props (w : nat) (s t r : cstr) :
  scan_s (S w) s = Converted t r ->
  (1 <= length t <= S w)%nat /\ no_space t.
Proof.
  unfold scan_s. destruct (skip_space s) as [|c s1] eqn:Es; [discriminate|].
  apply skip_space_head in Es.
  destruct (scan_token (S w) (c :: s1)) as [t' r'] eqn:Et.
  intros [= <- <-].
  destruct (scan_token_props _ _ _ _ Et) as (Hlen & Hns & _).
  simpl in Et. rewrite Es in Et.
  destruct (scan_token w s1). injection Et as <- _.
  simpl in *. split; [lia | exact Hns].
Qed.

Lemma sscanf_transition_key_fields (key : cstr) :
  Forall key_field_ok (snd (sscanf key transition_key_fmt)).
Proof.
  unfold sscanf, transition_key_fmt, sscanf_from.
  cbv beta iota delta [default from_option id].
  repeat first
    [ match goal with
      | |- context [scan_d ?s] =>
          let E := fresh "E" in
          destruct (scan_d s) eqn:E; [apply scan_d_range in E | |]
      | |- context [scan_s 36%nat ?s] =>
          let E := fresh "E" in
          destruct (scan_s 36%nat s) eqn:E; [apply scan_s_props in E | |]
      | |- context [scan_lit ?c ?s] => destruct (scan_lit c s)
      | |- context [match ?r with [] => _ | _ :: _ => _ end] => destruct r
      end ];
    simpl;
    repeat (apply List.Forall_cons; [simpl; tauto|]); apply List.Forall_nil.
Qed.

(** Property X8: the outputs of [decode_transition_key] are all or
    nothing. On failure they hold NULL and -1, -1, -1; on success the
    three numbers are [int] values and the UUID is a string of at least
    one and at most 36 characters without white space, so it fits the
    37-byte buffer it is scanned into. *)
Theorem decode_transition_key_outputs (key : option cstr) :
  let result := fst (decode_transition_key key) in
  let out := snd (decode_transition_key key) in
  (result = false -> out = mk_transition_key_out None (-1) (-1) (-1))
  /\ (result = true ->
      exists uuid,
        key_uuid out = Some uuid
        /\ (1 <= length uuid <= 36)%nat /\ no_space uuid
        /\ INT_MIN <= key_transition_id out <= INT_MAX
        /\ INT_MIN <= key_action_id out <= INT_MAX
        /\ INT_MIN <= key_target_rc out <= INT_MAX).
Proof.
  cbv zeta. split; [apply decode_transition_key_failed|].
  unfold decode_transition_key. destruct key as [k|]; [|discriminate].
  pose proof (sscanf_transition_key_fields k) as Hok.
  destruct (sscanf k transition_key_fmt) as [n fields]. simpl snd in Hok.
  repeat first
    [ discriminate
    | match goal with
      | |- context [match ?x with _ => _ end] => destruct x
      end; simpl ].
  intros _.
  repeat match goal with
         | H : Forall _ (_ :: _) |- _ => inversion H; subst; clear H
         end.
  simpl in *. eexists. split; [reflexivity|]. tauto.
Qed.

Lemma skip_space_spaces (n : nat) : skip_space (repeat " "%char n) = [].
Proof. induction n as [|n IH]; [reflexivity | exact IH]. Qed.

Lemma scan_s_spaces (w n : nat) : scan_s w (repeat " "%char n) = InputFail.
Proof. unfold scan_s. rewrite skip_space_spaces. reflexivity. Qed.

Lemma sscanf_key_with_field
    (transition_id action_id target_rc : Z) (field : cstr) :
  INT_MIN <= transition_id <= INT_MAX ->
  INT_MIN <= action_id <= INT_MAX ->
  INT_MIN <= target_rc <= INT_MAX ->
  sscanf (key_with_field transition_id action_id target_rc field)
         transition_key_fmt
  = match scan_s 36 field with
    | Converted uuid _ =>
        (4, [ArgInt action_id; ArgInt transition_id; ArgInt target_rc;
             ArgStr uuid])
    | _ => (3, [ArgInt action_id; ArgInt transition_id; ArgInt target_rc])
    end.
Proof.
  intros Ht Ha Hr.
  unfold key_with_field, sscanf, transition_key_fmt, lit.
  simpl list_ascii_of_string. simpl app.
  unfold sscanf_from.
  rewrite (scan_d_itoa action_id ":"%char _ Ha eq_refl).
  cbv beta iota. unfold scan_lit at 1. rewrite ascii_eqb_refl.
  rewrite (scan_d_itoa transition_id ":"%char _ Ht eq_refl).
  cbv beta iota. unfold scan_lit at 1. rewrite ascii_eqb_refl.
  rewrite (scan_d_itoa target_rc ":"%char _ Hr eq_refl).
  cbv beta iota. unfold scan_lit at 1. rewrite ascii_eqb_refl.
  cbv beta iota delta [default from_option id].
  destruct (scan_s 36 field); reflexivity.
Qed.

(** Property X9: a node name that is empty or consists of spaces only is
    accepted by [pcmk__transition_key], but the key it produces cannot be
    decoded: [decode_transition_key] fails on it and stores NULL and -1,
    -1, -1. *)
Theorem decode_transition_key_blank_node
    (transition_id action_id target_rc : Z) (n : nat) :
  INT_MIN <= transition_id <= INT_MAX ->
  INT_MIN <= action_id <= INT_MAX ->
  INT_MIN <= target_rc <= INT_MAX ->
  exists key,
    pcmk__transition_key transition_id action_id target_rc
      (Some (repeat " "%char n)) = Some key
    /\ decode_transition_key (Some key)
       = (false, mk_transition_key_out None (-1) (-1) (-1)).
Proof.
  intros Ht Ha Hr. eexists. split; [reflexivity|].
  unfold decode_transition_key.
  change (itoa action_id ++ lit ":" ++ itoa transition_id ++ lit ":"
          ++ itoa target_rc ++ lit ":" ++ pad_right 36 (repeat " "%char n))
    with (key_with_field transition_id action_id target_rc
            (pad_right 36 (repeat " "%char n))).
  rewrite (sscanf_key_with_field _ _ _ _ Ht Ha Hr).
  unfold pad_right. rewrite <- repeat_app, scan_s_spaces. reflexivity.
Qed.

Lemma decode_transition_key_blank_node_witness :
  exists key,
    pcmk__transition_key 1 2 0 (Some (repeat " "%char 0)) = Some key
    /\ decode_transition_key (Some key)
       = (false, mk_transition_key_out None (-1) (-1) (-1)).
Proof.
  apply (decode_transition_key_blank_node 1 2 0 0);
    unfold INT_MIN, INT_MAX; lia.
Defined.

(** ** Transition magic: decoding [op_status ":" op_rc ";" key] *)

Lemma no_space_digits (ds : cstr) : all_digits ds -> no_space ds.
Proof.
  unfold all_digits, no_space. apply List.Forall_impl.
  intros c. apply isdigit_not_space.
Qed.

Lemma itoa_no_space (z : Z) : no_space (itoa z) /\ itoa z <> [].
Proof.
  unfold itoa. destruct (z <? 0) eqn:E.
  - apply Z.ltb_lt in E. destruct (utoa_spec (- z)) as (Hds & _ & _); [lia|].
    split; [|discriminate].
    apply List.Forall_cons; [reflexivity | apply no_space_digits; exact Hds].
  - apply Z.ltb_ge in E. destruct (utoa_spec z E) as (Hds & Hne & _).
    split; [apply no_space_digits; exact Hds | exact Hne].
Qed.

Lemma key_with_field_no_space
    (transition_id action_id target_rc : Z) (field : cstr) :
  no_space field ->
  no_space (key_with_field transition_id action_id target_rc field)
  /\ key_with_field transition_id action_id target_rc field <> [].
Proof.
  intros Hf. unfold key_with_field.
  destruct (itoa_no_space action_id) as [Ha Hne].
  destruct (itoa_no_space transition_id) as [Ht _].
  destruct (itoa_no_space target_rc) as [Hr _].
  split.
  - unfold no_space in *. rewrite !List.Forall_app.
    repeat split; try assumption; repeat constructor.
  - intros E. apply app_eq_nil in E as [E _]. contradiction.
Qed.

(** The initial split of a magic string whose key part [token] is a word
    without white space, possibly followed by spaces. *)
Lemma sscanf_magic_fields (op_status op_rc : Z) (token : cstr) (k : nat) :
  INT_MIN <= op_status <= INT_MAX -> INT_MIN <= op_rc <= INT_MAX ->
  token <> [] -> no_space token ->
  sscanf (itoa op_status ++ lit ":" ++ itoa op_rc ++ lit ";"
          ++ token ++ repeat " "%char k)
         transition_magic_fmt
  = (3, [ArgInt op_status; ArgInt op_rc; ArgStr token]).
Proof.
  intros Hs Hr Hne Hns.
  unfold sscanf, transition_magic_fmt, lit.
  simpl list_ascii_of_string. simpl app.
  unfold sscanf_from.
  rewrite (scan_d_itoa op_status ":"%char _ Hs eq_refl).
  cbv beta iota. unfold scan_lit at 1. rewrite ascii_eqb_refl.
  rewrite (scan_d_itoa op_rc ";"%char _ Hr eq_refl).
  cbv beta iota. unfold scan_lit at 1. rewrite ascii_eqb_refl.
  cbv beta iota delta [default from_option id].
  rewrite (scan_s_padded _ token k Hne Hns).
  rewrite firstn_all2 by (rewrite length_app; lia).
  reflexivity.
Qed.

Lemma decode_key_with_field
    (transition_id action_id target_rc : Z) (node : cstr) :
  INT_MIN <= transition_id <= INT_MAX ->
  INT_MIN <= action_id <= INT_MAX ->
  INT_MIN <= target_rc <= INT_MAX ->
  node <> [] -> no_space node ->
  decode_transition_key
    (Some (key_with_field transition_id action_id target_rc node))
  = (true,
     mk_transition_key_out (Some (firstn 36 node)) transition_id action_id
                           target_rc).
Proof.
  intros Ht Ha Hr Hne Hns. unfold decode_transition_key.
  rewrite (sscanf_key_with_field _ _ _ _ Ht Ha Hr).
  pose proof (scan_s_padded 36 node 0 Hne Hns) as E.
  simpl repeat in E. rewrite app_nil_r in E. rewrite E. reflexivity.
Qed.

(** Property X10: a transition magic decodes to the six values it was
    written from. For [int] status, return codes and ids and a non-empty
    node name without white space, [decode_transition_magic] applied to
    [op_status ":" op_rc ";"] followed by the key of
    [pcmk__transition_key] succeeds and stores the status, the actual rc,
    the transition id, the action id, the target rc and, as UUID, the
    first 36 characters of the node name.  What the caller's variables
    held before does not matter. *)
Theorem decode_transition_magic_roundtrip
    (op_status op_rc transition_id action_id target_rc : Z) (node : cstr)
    (out : magic_out) :
  INT_MIN <= op_status <= INT_MAX -> INT_MIN <= op_rc <= INT_MAX ->
  INT_MIN <= transition_id <= INT_MAX ->
  INT_MIN <= action_id <= INT_MAX ->
  INT_MIN <= target_rc <= INT_MAX ->
  node <> [] -> no_space node ->
  exists key,
    pcmk__transition_key transition_id action_id target_rc (Some node)
    = Some key
    /\ decode_transition_magic
         (Some (itoa op_status ++ lit ":" ++ itoa op_rc ++ lit ";" ++ key)) out
       = (true,
          mk_magic_out (Some (firstn 36 node)) transition_id action_id
                       op_status op_rc target_rc).
Proof.
  intros Hs Hrc Ht Ha Hr Hne Hns. eexists. split; [reflexivity|].
  destruct (key_with_field_no_space transition_id action_id target_rc node Hns)
    as [Hkns Hkne].
  assert (E : itoa action_id ++ lit ":" ++ itoa transition_id ++ lit ":"
              ++ itoa target_rc ++ lit ":" ++ pad_right 36 node
              = key_with_field transition_id action_id target_rc node
                ++ repeat " "%char (36 - length node)).
  { unfold key_with_field, pad_right. rewrite <- !app_assoc. reflexivity. }
  rewrite E. unfold decode_transition_magic.
  rewrite (sscanf_magic_fields op_status op_rc _ _ Hs Hrc Hkne Hkns).
  cbv beta iota zeta. simpl Z.eqb. simpl Z.ltb. cbv iota.
  rewrite (decode_key_with_field _ _ _ _ Ht Ha Hr Hne Hns). reflexivity.
Qed.

Lemma decode_transition_magic_roundtrip_witness :
  exists key,
    pcmk__transition_key 5 3 7 (Some (lit "node1")) = Some key
    /\ decode_transition_magic
         (Some (itoa 0 ++ lit ":" ++ itoa 7 ++ lit ";" ++ key))
         (mk_magic_out None 9 9 9 9 9)
       = (true, mk_magic_out (Some (firstn 36 (lit "node1"))) 5 3 0 7 7).
Proof.
  apply (decode_transition_magic_roundtrip 0 7 5 3 7 (lit "node1"));
    first [ unfold INT_MIN, INT_MAX; lia
          | discriminate
          | repeat constructor ].
Defined.

(** Property X11: when the initial split of a transition magic succeeds
    but the key part does not decode, [decode_transition_magic] fails with
    its outputs partly written: the status and the actual rc hold the
    values scanned from the magic, while the UUID is NULL and the
    transition id, action id and target rc are -1. *)
Theorem decode_transition_magic_bad_key
    (op_status op_rc : Z) (token : cstr) (out : magic_out) :
  INT_MIN <= op_status <= INT_MAX -> INT_MIN <= op_rc <= INT_MAX ->
  token <> [] -> no_space token ->
  fst (decode_transition_key (Some token)) = false ->
  decode_transition_magic
    (Some (itoa op_status ++ lit ":" ++ itoa op_rc ++ lit ";" ++ token)) out
  = (false, mk_magic_out None (-1) (-1) op_status op_rc (-1)).
Proof.
  intros Hs Hrc Hne Hns Hfail. unfold decode_transition_magic.
  pose proof (sscanf_magic_fields op_status op_rc token 0 Hs Hrc Hne Hns) as E.
  simpl repeat in E. rewrite app_nil_r in E. rewrite E.
  cbv beta iota zeta. simpl Z.eqb. simpl Z.ltb. cbv iota.
  pose proof (decode_transition_key_failed _ Hfail) as Hout.
  destruct (decode_transition_key (Some token)) as [result k].
  simpl in Hfail, Hout. subst. reflexivity.
Qed.

Lemma decode_transition_magic_bad_key_witness :
  decode_transition_magic
    (Some (itoa 0 ++ lit ":" ++ itoa 7 ++ lit ";" ++ lit "garbage"))
    (mk_magic_out (Some (lit "old")) 9 9 9 9 9)
  = (false, mk_magic_out None (-1) (-1) 0 7 (-1)).
Proof.
  apply (decode_transition_magic_bad_key 0 7 (lit "garbage"));
    first [ unfold INT_MIN, INT_MAX; lia
          | discriminate
          | repeat constructor
          | vm_compute; reflexivity ].
Defined.

(** ** Expected return code of a dispatched operation *)

(** Property X12: [rsc_op_expected_rc] reads back the target rc that
    [pcmk__transition_key] put into the user data of an operation, and
    with that target [did_rsc_op_fail] reports a completed operation as
    failed exactly when its actual rc differs from the target rc. *)
Theorem rsc_op_expected_rc_roundtrip
    (transition_id action_id target_rc : Z) (node : cstr)
    (status : op_status_t) (rc : Z) :
  INT_MIN <= transition_id <= INT_MAX ->
  INT_MIN <= action_id <= INT_MAX ->
  INT_MIN <= target_rc <= INT_MAX ->
  node <> [] -> no_space node ->
  let op :=
    mk_lrmd_event_data status rc
      (pcmk__transition_key transition_id action_id target_rc (Some node)) in
  rsc_op_expected_rc (Some op) = target_rc
  /\ (status = PCMK_LRM_OP_DONE ->
      did_rsc_op_fail op (rsc_op_expected_rc (Some op))
      = negb (rc =? target_rc)).
Proof.
  intros Ht Ha Hr Hne Hns op.
  assert (E : rsc_op_expected_rc (Some op) = target_rc).
  { pose proof (decode_transition_key_encoded _ _ _ _ Ht Ha Hr Hne Hns) as D.
    unfold rsc_op_expected_rc, op.
    exact (f_equal (fun r => key_target_rc (snd r)) D). }
  split; [exact E|]. intros ->. rewrite E.
  unfold did_rsc_op_fail, op. simpl.
  rewrite (Z.eqb_sym target_rc rc). destruct (rc =? target_rc); reflexivity.
Qed.

Lemma rsc_op_expected_rc_roundtrip_witness :
  let op :=
    mk_lrmd_event_data PCMK_LRM_OP_DONE 7
      (pcmk__transition_key 5 3 7 (Some (lit "node1"))) in
  rsc_op_expected_rc (Some op) = 7
  /\ (PCMK_LRM_OP_DONE = PCMK_LRM_OP_DONE ->
      did_rsc_op_fail op (rsc_op_expected_rc (Some op)) = negb (7 =? 7)).
Proof.
  apply (rsc_op_expected_rc_roundtrip 5 3 7 (lit "node1") PCMK_LRM_OP_DONE 7);
    first [ unfold INT_MIN, INT_MAX; lia
          | discriminate
          | repeat constructor ].
Defined.

(** ** Digest filter: what is removed and what is kept *)

(** Property X13: the filtered parameter set holds none of the six
    bookkeeping attributes and no attribute whose name starts, in any
    letter case, with the meta-attribute prefix, the timeout
    meta-attribute apart; every other attribute is kept with its value. *)
Theorem filter_op_for_digest_content
    (parse_ms : cstr -> option Z) (params : xml_attrs) :
  let result := pcmk__filter_op_for_digest parse_ms (Some params) in
  (forall name, name ∈ attr_filter -> attr_of result name = None)
  /\ (forall name,
        is_meta name = true -> name <> timeout_key ->
        attr_of result name = None)
  /\ (forall name,
        is_meta name = false -> name ∉ attr_filter ->
        attr_of result name = params !! name).
Proof.
  cbv zeta. rewrite filter_some. simpl attr_of. repeat split; intros name.
  - intros Hin. rewrite filtered_lookup.
    rewrite (bool_decide_eq_false_2 (name = timeout_key))
      by (intros ->; exact (timeout_key_kept Hin)).
    rewrite andb_false_r, (bool_decide_eq_true_2 _ Hin), orb_true_r.
    reflexivity.
  - intros Hmeta Hne. rewrite filtered_lookup.
    rewrite (bool_decide_eq_false_2 _ Hne), andb_false_r, Hmeta.
    reflexivity.
  - intros Hmeta Hout. rewrite filtered_lookup.
    rewrite (bool_decide_eq_false_2 (name = timeout_key))
      by (intros ->; rewrite timeout_key_meta in Hmeta; discriminate).
    rewrite andb_false_r, Hmeta, (bool_decide_eq_false_2 _ Hout).
    reflexivity.
Qed.

Lemma keeps_timeout_insert
    (parse_ms : cstr -> option Z) (params : xml_attrs) (name value : cstr) :
  name <> interval_key -> name <> timeout_key ->
  keeps_timeout parse_ms (<[name := value]> params)
  = keeps_timeout parse_ms params.
Proof.
  intros Hi Ht. unfold keeps_timeout, interval_of, crm_element_value_ms.
  rewrite !lookup_insert_ne by assumption. reflexivity.
Qed.

(** Property X14: the filtered parameter set does not depend on the
    attributes the filter removes. Adding or changing one of the six
    bookkeeping attributes, or a meta-attribute other than the interval
    and the timeout, leaves the result of [pcmk__filter_op_for_digest]
    unchanged. *)
Theorem filter_op_for_digest_ignores
    (parse_ms : cstr -> option Z) (params : xml_attrs) (name value : cstr) :
  name ∈ attr_filter
  \/ (is_meta name = true /\ name <> interval_key /\ name <> timeout_key) ->
  pcmk__filter_op_for_digest parse_ms (Some (<[name := value]> params))
  = pcmk__filter_op_for_digest parse_ms (Some params).
Proof.
  intros H.
  assert (Hi : name <> interval_key).
  { destruct H as [Hin | (_ & Hi & _)]; [|exact Hi].
    intros ->. exact (interval_key_kept Hin). }
  assert (Ht : name <> timeout_key).
  { destruct H as [Hin | (_ & _ & Ht)]; [|exact Ht].
    intros ->. exact (timeout_key_kept Hin). }
  assert (Hgone : is_meta name || bool_decide (name ∈ attr_filter) = true).
  { destruct H as [Hin | (Hmeta & _)].
    - rewrite (bool_decide_eq_true_2 _ Hin). apply orb_true_r.
    - rewrite Hmeta. reflexivity. }
  rewrite !filter_some. f_equal. apply map_eq. intros k.
  rewrite !filtered_lookup, (keeps_timeout_insert _ _ _ _ Hi Ht).
  rewrite (lookup_insert_ne params name timeout_key value Ht).
  destruct (keeps_timeout parse_ms params && bool_decide (k = timeout_key));
    [reflexivity|].
  destruct (is_meta k || bool_decide (k ∈ attr_filter)) eqn:Ek; [reflexivity|].
  apply lookup_insert_ne. intros ->. congruence.
Qed.

Lemma filter_op_for_digest_ignores_witness :
  pcmk__filter_op_for_digest decimal_ms
    (Some (<[lit "CRM_meta_on_fail" := lit "restart"]> recurring_params))
  = pcmk__filter_op_for_digest decimal_ms (Some recurring_params).
Proof.
  apply (filter_op_for_digest_ignores decimal_ms recurring_params
           (lit "CRM_meta_on_fail") (lit "restart")).
  right. split; [vm_compute; reflexivity|].
  split; vm_compute; discriminate.
Defined.

(** Property X15: a second run of the filter on its own result removes
    the timeout meta-attribute and nothing else, and from then on the
    result is stable: a third run changes nothing. *)
Theorem filter_op_for_digest_reruns
    (parse_ms : cstr -> option Z) (params : xml_attrs) :
  let once := pcmk__filter_op_for_digest parse_ms (Some params) in
  let twice := pcmk__filter_op_for_digest parse_ms once in
  twice = option_map (delete timeout_key) once
  /\ pcmk__filter_op_for_digest parse_ms twice = twice.
Proof.
  cbv zeta. rewrite !filter_some. simpl option_map. split.
  - f_equal. apply filtered_twice.
  - f_equal. apply filtered_idempotent, filtered_keeps_nothing.
Qed.

(** ** Meta-data requirement: the class check *)

(** Property X16: for a resource class whose capabilities lack parameter
    support, [crm_op_needs_metadata] is false whatever the action, a NULL
    action and the eight meta-data actions included. *)
Theorem crm_op_needs_metadata_without_params
    (pcmk_get_ra_caps : cstr -> Z) (pcmk_ra_cap_params : Z)
    (class : cstr) (op : option cstr) :
  Z.land (pcmk_get_ra_caps class) pcmk_ra_cap_params = 0 ->
  crm_op_needs_metadata pcmk_get_ra_caps pcmk_ra_cap_params (Some class) op
  = false.
Proof.
  intros Hcap. unfold crm_op_needs_metadata, is_not_set.
  apply Z.eqb_eq in Hcap. rewrite Hcap. reflexivity.
Qed.

Lemma crm_op_needs_metadata_without_params_witness :
  crm_op_needs_metadata (fun _ => 2) 4 (Some (lit "lsb")) (Some (lit "start"))
  = false.
Proof.
  apply (crm_op_needs_metadata_without_params (fun _ => 2) 4 (lit "lsb")).
  reflexivity.
Defined.

(** Property X17: without a resource class the capability table is not
    consulted: [crm_op_needs_metadata] is false when the action is NULL as
    well (the failed check of its arguments), and for a given action it is
    true exactly when the action is one of the eight meta-data actions. *)
Theorem crm_op_needs_metadata_without_class
    (pcmk_get_ra_caps : cstr -> Z) (pcmk_ra_cap_params : Z) :
  crm_op_needs_metadata pcmk_get_ra_caps pcmk_ra_cap_params None None = false
  /\ forall op : cstr,
       crm_op_needs_metadata pcmk_get_ra_caps pcmk_ra_cap_params
         None (Some op) = true
       <-> In op metadata_actions.
Proof.
  split; [reflexivity|]. intros op.
  assert (E : crm_op_needs_metadata pcmk_get_ra_caps pcmk_ra_cap_params
                None (Some op)
              = negb (strcmp_ne op CRMD_ACTION_START
                      && strcmp_ne op CRMD_ACTION_STATUS
                      && strcmp_ne op CRMD_ACTION_PROMOTE
                      && strcmp_ne op CRMD_ACTION_DEMOTE
                      && strcmp_ne op CRMD_ACTION_RELOAD
                      && strcmp_ne op CRMD_ACTION_MIGRATE
                      && strcmp_ne op CRMD_ACTION_MIGRATED
                      && strcmp_ne op CRMD_ACTION_NOTIFY)).
  { unfold crm_op_needs_metadata. simpl.
    unfold strcmp_ne. rewrite !andb_assoc.
    destruct (negb (cstr_eqb op CRMD_ACTION_START) && _); reflexivity. }
  rewrite E, negb_true_iff, !andb_false_iff, !strcmp_ne_false.
  unfold metadata_actions. simpl In. intuition congruence.
Qed.

(** ** Transition keys: distinct actions, distinct keys *)

(** Property X18: [pcmk__transition_key] never gives two actions the same
    key. For [int] ids and return codes and non-empty node names without
    white space, equal keys have the same transition id, action id and
    target rc, and node names that agree on their first 36 characters. *)
Theorem pcmk__transition_key_injective
    (transition1 action1 target1 transition2 action2 target2 : Z)
    (node1 node2 : cstr) :
  INT_MIN <= transition1 <= INT_MAX -> INT_MIN <= action1 <= INT_MAX ->
  INT_MIN <= target1 <= INT_MAX ->
  INT_MIN <= transition2 <= INT_MAX -> INT_MIN <= action2 <= INT_MAX ->
  INT_MIN <= target2 <= INT_MAX ->
  node1 <> [] -> no_space node1 -> node2 <> [] -> no_space node2 ->
  pcmk__transition_key transition1 action1 target1 (Some node1)
  = pcmk__transition_key transition2 action2 target2 (Some node2) ->
  transition1 = transition2 /\ action1 = action2 /\ target1 = target2
  /\ firstn 36 node1 = firstn 36 node2.
Proof.
  intros Ht1 Ha1 Hr1 Ht2 Ha2 Hr2 Hne1 Hns1 Hne2 Hns2 E.
  apply (f_equal decode_transition_key) in E.
  rewrite (decode_transition_key_encoded _ _ _ _ Ht1 Ha1 Hr1 Hne1 Hns1) in E.
  rewrite (decode_transition_key_encoded _ _ _ _ Ht2 Ha2 Hr2 Hne2 Hns2) in E.
  injection E as -> -> -> ->. auto.
Qed.

Lemma pcmk__transition_key_injective_witness :
  5 = 5 /\ 3 = 3 /\ 7 = 7 /\ firstn 36 (lit "node1") = firstn 36 (lit "node1").
Proof.
  apply (pcmk__transition_key_injective 5 3 7 5 3 7 (lit "node1") (lit "node1"));
    first [ reflexivity
          | unfold INT_MIN, INT_MAX; lia
          | discriminate
          | repeat constructor ].
Defined.
